(** * DroneDelivery: the product-path MILP builder and its solution interpreter

    A shallow embedding of [dronedelivery/solve_product_path/solve_product_path.py]
    (class [SolveProductTrips]) together with the properties of the model it
    builds: the four variable catalogs, the objective, the four constraint
    families, and the translation of a solver assignment into trips. *)

From stdpp Require Import gmap strings pretty list fin_maps.
From Stdlib Require Import ZArith Lia.

Local Open Scope Z_scope.

(** ** Python building blocks *)

(** A Python [dict] keeps its keys in insertion order; assigning to a key that
    is already present replaces the value in place.  The catalogs of the
    builder are turned into lists with [list(d.values())], so the order is
    part of the model: a dictionary is an association list without repeated
    keys. *)
Section pydict.
Context {K V : Type} `{EqDecision K}.

Fixpoint dict_set (k : K) (v : V) (d : list (K * V)) : list (K * V) :=
  match d with
  | [] => [(k, v)]
  | (k', v') :: d' =>
      if decide (k' = k) then (k', v) :: d' else (k', v') :: dict_set k v d'
  end.

(** [d[k]]; [None] stands for [KeyError]. *)
Fixpoint dict_get (k : K) (d : list (K * V)) : option V :=
  match d with
  | [] => None
  | (k', v') :: d' => if decide (k' = k) then Some v' else dict_get k d'
  end.

Definition dict_values (d : list (K * V)) : list V := d.*2.

(** [{k: val(k) for k in ks}] *)
Definition dict_comprehension (val : K → V) (ks : list K) : list (K * V) :=
  foldl (λ d k, dict_set k (val k) d) [] ks.
End pydict.

(** A [for] loop over a list whose body updates a local accumulator and may
    raise. *)
Fixpoint for_each {A S : Type} (xs : list A) (body : S → A → option S) (s : S)
  : option S :=
  match xs with
  | [] => Some s
  | x :: xs' => s' ← body s x; for_each xs' body s'
  end.

(** [itertools.product] of three iterables: the last index moves fastest. *)
Definition product3 {A B C : Type} (xs : list A) (ys : list B) (zs : list C)
  : list (A * B * C) :=
  flat_map (λ x, flat_map (λ y, map (λ z, (x, y, z)) zs) ys) xs.

Definition sumZ (l : list Z) : Z := foldr Z.add 0 l.

(** ** The collaborators of the builder *)

(** Customers, hubs and products live in [dronedelivery.problem.objects]; the
    builder only uses their equality and hash (as dictionary keys and in
    [hub1 != hub2]), their [location], a customer's [demand] dictionary, a
    hub's [get_available_items], and their rendering inside the f-strings
    that name the variables. *)
Class ProblemObjects (Customer Hub Product Location : Type)
    `{Countable Customer, Countable Hub, Countable Product} := {
  customer_location : Customer → Location;
  customer_demand : Customer → gmap Product Z;
  hub_location : Hub → Location;
  get_available_items : Hub → Product → Z;
  str_customer : Customer → string;
  str_hub : Hub → string;
  str_product : Product → string
}.

Record Environment (Location : Type) := {
  get_distance : Location → Location → Z
}.
Arguments get_distance {Location} _ _ _.

Inductive VariableClass :=
  | FlightsCustomerHub
  | ProductsMoveCustomerHub
  | FlightsHubHub
  | ProductsMoveHubHub.

Global Instance VariableClass_eq_dec : EqDecision VariableClass.
Proof. solve_decision. Defined.

Section DroneDelivery.
Context {Customer Hub Product Location : Type}.
Context `{ProblemObjects Customer Hub Product Location}.

(** The values stored in a variable's [data] dictionary. *)
Inductive Obj :=
  | OCustomer (c : Customer)
  | OHub (h : Hub)
  | OProduct (p : Product).

Global Instance Obj_eq_dec : EqDecision Obj.
Proof. solve_decision. Defined.

(** Modelled from the spec: the class [IntegerVariable] of
    [dronedelivery.utils.mip_utils.variables] is not part of the sources.  A
    variable has a lower bound and an optional finite upper bound
    ([None] when the constructor is called without [upper_bound]), and is
    tagged with the index tuple that produced it.  The four subclasses of
    [solve_product_path.py] add nothing, so the subclass is a field. *)
Record IntegerVariable := {
  class_of : VariableClass;
  name : gset string;
  lower_bound : Z;
  upper_bound : option Z;
  data : gmap string Obj
}.

Global Instance IntegerVariable_eq_dec : EqDecision IntegerVariable.
Proof. solve_decision. Defined.

Definition isinstance (v : IntegerVariable) (c : VariableClass) : bool :=
  bool_decide (class_of v = c).

(** Modelled from the spec: the class [LinearExpression] of
    [dronedelivery.utils.mip_utils.linear_expression] is not part of the
    sources.  It is a weighted sum of decision variables: [add_variable]
    adds one term (coefficient 1 when none is given) and [-] subtracts
    term by term. *)
Definition LinearExpression := list (IntegerVariable * Z).

Definition LinearExpression_new : LinearExpression := [].

Definition add_variable (le : LinearExpression) (variable : IntegerVariable)
    (coefficient : Z) : LinearExpression :=
  le ++ [(variable, coefficient)].

Definition le_sub (le_1 le_2 : LinearExpression) : LinearExpression :=
  le_1 ++ map (λ t, (t.1, - t.2)) le_2.

(** The value of a weighted sum under an assignment. *)
Definition le_eval (ρ : IntegerVariable → Z) (le : LinearExpression) : Z :=
  sumZ (map (λ t, t.2 * ρ t.1) le).

(** Modelled from the spec: the classes [EqualityConstraint] and
    [LE_InequalityConstraint] of [dronedelivery.utils.mip_utils.constraints]
    are not part of the sources; they stand for [lhs == rhs] and
    [lhs ≤ rhs]. *)
Inductive Constraint :=
  | EqualityConstraint (lhs : LinearExpression) (rhs : Z)
  | LE_InequalityConstraint (lhs : LinearExpression) (rhs : Z).

Definition holds (ρ : IntegerVariable → Z) (c : Constraint) : Prop :=
  match c with
  | EqualityConstraint lhs rhs => le_eval ρ lhs = rhs
  | LE_InequalityConstraint lhs rhs => le_eval ρ lhs ≤ rhs
  end.

(** Modelled from the spec: the class [Model] of
    [dronedelivery.utils.mip_utils.model] is not part of the sources; it
    packages the variables, the objective and the constraints. *)
Record Model := {
  decision_variables : list IntegerVariable;
  objective : LinearExpression;
  constraints : list Constraint
}.

Record Trip := {
  origin : Obj;
  destination : Obj;
  product_type : Obj;
  product_quantity : Z
}.

Record Trips := {
  hub_to_customer : list Trip;
  hub_to_hub : list Trip
}.

(** ** The object state of [SolveProductTrips]

    An attribute that has not been assigned yet is [None]; reading it
    raises. *)
Record SolveProductTrips := {
  environment : Environment Location;
  max_flight_capacity : Z;
  n_flights_variables : option (list (Customer * Hub * IntegerVariable));
  n_product_move_variables :
    option (list (Customer * Hub * Product * IntegerVariable));
  n_flights_hub_to_hub_variables : option (list (Hub * Hub * IntegerVariable));
  n_products_move_hub_to_hub_variables :
    option (list (Hub * Hub * Product * IntegerVariable));
  model : option Model
}.

(** ** The decision variable catalog

    Each catalog is a dictionary comprehension keyed by the index tuple
    itself; the four functions below are the value expressions of the four
    comprehensions, as functions of the key. *)

Definition flights_customer_hub (k : Customer * Hub) : IntegerVariable :=
  let '(customer, hub) := k in
  {| class_of := FlightsCustomerHub;
     name := {[ "number of flights from " +:+ str_hub hub +:+ " to "
                +:+ str_customer customer ]};
     lower_bound := 0;
     upper_bound := None;
     data := {[ "customer" := OCustomer customer; "hub" := OHub hub ]} |}.

Definition products_move_customer_hub (k : Customer * Hub * Product)
  : IntegerVariable :=
  let '(customer, hub, product) := k in
  {| class_of := ProductsMoveCustomerHub;
     name := {[ "number of products of product type " +:+ str_product product
                +:+ " from " +:+ str_hub hub +:+ " to "
                +:+ str_customer customer ]};
     lower_bound := 0;
     upper_bound :=
       Some (if bool_decide (product ∈ dom (customer_demand customer))
             then default 0 (customer_demand customer !! product)
             else 0);
     data := {[ "customer" := OCustomer customer; "hub" := OHub hub;
                "product" := OProduct product ]} |}.

Definition flights_hub_hub (k : Hub * Hub) : IntegerVariable :=
  let '(hub1, hub2) := k in
  {| class_of := FlightsHubHub;
     name := {[ "number of flights from " +:+ str_hub hub1 +:+ " to "
                +:+ str_hub hub2 ]};
     lower_bound := 0;
     upper_bound := None;
     data := {[ "hub1" := OHub hub1; "hub2" := OHub hub2 ]} |}.

Definition products_move_hub_hub (k : Hub * Hub * Product) : IntegerVariable :=
  let '(hub1, hub2, product) := k in
  {| class_of := ProductsMoveHubHub;
     name := {[ "number of products of product type " +:+ str_product product
                +:+ " from " +:+ str_hub hub1 +:+ " to " +:+ str_hub hub2 ]};
     lower_bound := 0;
     upper_bound := None;
     data := {[ "hub1" := OHub hub1; "hub2" := OHub hub2;
                "product" := OProduct product ]} |}.

Definition _get_n_flights_variables (customers : list Customer)
    (hubs : list Hub) : list (Customer * Hub * IntegerVariable) :=
  dict_comprehension flights_customer_hub (list_prod customers hubs).

Definition _get_n_products_move_variables (customers : list Customer)
    (hubs : list Hub) (products : list Product)
  : list (Customer * Hub * Product * IntegerVariable) :=
  dict_comprehension products_move_customer_hub
    (product3 customers hubs products).

Definition _get_n_flights_hub_to_hub (hubs : list Hub)
  : list (Hub * Hub * IntegerVariable) :=
  dict_comprehension flights_hub_hub
    (filter (λ k, k.1 ≠ k.2) (list_prod hubs hubs)).

Definition _get_n_products_move_hub_to_hub (hubs : list Hub)
    (products : list Product) : list (Hub * Hub * Product * IntegerVariable) :=
  dict_comprehension products_move_hub_hub
    (filter (λ k, k.1.1 ≠ k.1.2) (product3 hubs hubs products)).

Definition get_variables (self : SolveProductTrips) (customers : list Customer)
    (hubs : list Hub) (products : list Product)
  : SolveProductTrips * list IntegerVariable :=
  let d1 := _get_n_flights_variables customers hubs in
  let d2 := _get_n_products_move_variables customers hubs products in
  let d3 := _get_n_flights_hub_to_hub hubs in
  let d4 := _get_n_products_move_hub_to_hub hubs products in
  ({| environment := environment self;
      max_flight_capacity := max_flight_capacity self;
      n_flights_variables := Some d1;
      n_product_move_variables := Some d2;
      n_flights_hub_to_hub_variables := Some d3;
      n_products_move_hub_to_hub_variables := Some d4;
      model := model self |},
   dict_values d1 ++ dict_values d2 ++ dict_values d3 ++ dict_values d4).

(** ** The objective *)

Definition get_objective (self : SolveProductTrips) (customers : list Customer)
    (hubs : list Hub) : option LinearExpression :=
  le ← for_each (list_prod customers hubs)
         (λ le '(customer, hub),
            d ← n_flights_variables self;
            variable ← dict_get (customer, hub) d;
            Some (add_variable le variable
                    (get_distance (environment self)
                       (hub_location hub) (customer_location customer))))
         LinearExpression_new;
  for_each (list_prod hubs hubs)
    (λ le '(hub1, hub2),
       if decide (hub1 ≠ hub2) then
         d ← n_flights_hub_to_hub_variables self;
         variable ← dict_get (hub1, hub2) d;
         Some (add_variable le variable
                 (get_distance (environment self)
                    (hub_location hub1) (hub_location hub2)))
       else Some le)
    le.

(** ** The four constraint families *)

Definition _get_demand_constraints (self : SolveProductTrips)
    (customers : list Customer) (products : list Product) (hubs : list Hub)
  : option (list Constraint) :=
  for_each (list_prod customers products)
    (λ constraints '(customer, product),
       if bool_decide (product ∈ dom (customer_demand customer)) then
         lhs ← for_each hubs
                 (λ lhs hub,
                    d ← n_product_move_variables self;
                    variable ← dict_get (customer, hub, product) d;
                    Some (add_variable lhs variable 1))
                 LinearExpression_new;
         rhs ← customer_demand customer !! product;
         Some (constraints ++ [EqualityConstraint lhs rhs])
       else Some constraints)
    [].

Definition _get_supply_constraints (self : SolveProductTrips)
    (customers : list Customer) (products : list Product) (hubs : list Hub)
  : option (list Constraint) :=
  for_each (list_prod hubs products)
    (λ constraints '(hub, product),
       le_1 ← for_each customers
                (λ le_1 customer,
                   d ← n_product_move_variables self;
                   variable ← dict_get (customer, hub, product) d;
                   Some (add_variable le_1 variable 1))
                LinearExpression_new;
       le_2 ← for_each hubs
                (λ le_2 hub_,
                   if decide (hub_ ≠ hub) then
                     d ← n_products_move_hub_to_hub_variables self;
                     variable ← dict_get (hub_, hub, product) d;
                     let le_2 := add_variable le_2 variable 1 in
                     d ← n_products_move_hub_to_hub_variables self;
                     variable ← dict_get (hub, hub_, product) d;
                     Some (add_variable le_2 variable (-1))
                   else Some le_2)
                LinearExpression_new;
       Some (constraints
               ++ [LE_InequalityConstraint (le_sub le_1 le_2)
                     (get_available_items hub product)]))
    [].

Definition _get_trips_constraints (self : SolveProductTrips)
    (customers : list Customer) (products : list Product) (hubs : list Hub)
  : option (list Constraint) :=
  for_each (list_prod customers hubs)
    (λ constraints '(customer, hub),
       le_1 ← for_each products
                (λ le_1 product,
                   d ← n_product_move_variables self;
                   variable ← dict_get (customer, hub, product) d;
                   Some (add_variable le_1 variable 1))
                LinearExpression_new;
       d ← n_flights_variables self;
       variable ← dict_get (customer, hub) d;
       let le_2 :=
         add_variable LinearExpression_new variable (max_flight_capacity self) in
       Some (constraints ++ [LE_InequalityConstraint (le_sub le_1 le_2) 0]))
    [].

Definition _get_trips_hub_to_hub_constraints (self : SolveProductTrips)
    (products : list Product) (hubs : list Hub) : option (list Constraint) :=
  for_each (list_prod hubs hubs)
    (λ constraints '(hub1, hub2),
       if decide (hub1 ≠ hub2) then
         le_1 ← for_each products
                  (λ le_1 product,
                     d ← n_products_move_hub_to_hub_variables self;
                     variable ← dict_get (hub1, hub2, product) d;
                     Some (add_variable le_1 variable 1))
                  LinearExpression_new;
         d ← n_flights_hub_to_hub_variables self;
         variable ← dict_get (hub1, hub2) d;
         let le_2 :=
           add_variable LinearExpression_new variable
             (max_flight_capacity self) in
         Some (constraints ++ [LE_InequalityConstraint (le_sub le_1 le_2) 0])
       else Some constraints)
    [].

Definition get_constraints (self : SolveProductTrips)
    (customers : list Customer) (hubs : list Hub) (products : list Product)
  : option (list Constraint) :=
  demand_constraints ← _get_demand_constraints self customers products hubs;
  supply_constraints ← _get_supply_constraints self customers products hubs;
  trips_constraints ← _get_trips_constraints self customers products hubs;
  trips_hub_hub_constraints ←
    _get_trips_hub_to_hub_constraints self products hubs;
  Some (demand_constraints ++ supply_constraints ++ trips_constraints
          ++ trips_hub_hub_constraints).

(** ** The constructor *)

Definition __init__ (customers : list Customer) (hubs : list Hub)
    (products : list Product) (max_flight_capacity : Z)
    (environment : Environment Location) : option SolveProductTrips :=
  let self :=
    {| environment := environment;
       max_flight_capacity := max_flight_capacity;
       n_flights_variables := None;
       n_product_move_variables := None;
       n_flights_hub_to_hub_variables := None;
       n_products_move_hub_to_hub_variables := None;
       model := None |} in
  let '(self, decision_variables) :=
    get_variables self customers hubs products in
  objective ← get_objective self customers hubs;
  constraints ← get_constraints self customers hubs products;
  Some {| environment := DroneDelivery.environment self;
          max_flight_capacity := DroneDelivery.max_flight_capacity self;
          n_flights_variables := n_flights_variables self;
          n_product_move_variables := n_product_move_variables self;
          n_flights_hub_to_hub_variables := n_flights_hub_to_hub_variables self;
          n_products_move_hub_to_hub_variables :=
            n_products_move_hub_to_hub_variables self;
          model := Some {| decision_variables := decision_variables;
                           objective := objective;
                           constraints := constraints |} |}.

(** ** The solution interpreter *)

(** A solution is the solver's dictionary from variables to values, read in
    the order of [solution.items()].  [_get_trips_step] is the body of the
    loop: the two [if] statements, one after the other, on the pair of
    lists built so far. *)
Definition _get_trips_step (trips : list Trip * list Trip)
    (item : IntegerVariable * Z) : option (list Trip * list Trip) :=
  let '(trips_hub_to_customer, trips_hub_to_hub) := trips in
  let '(variable, value) := item in
  trips_hub_to_customer ←
    (if bool_decide (value ≠ 0) && isinstance variable ProductsMoveCustomerHub
     then
       o ← data variable !! "hub";
       d ← data variable !! "customer";
       p ← data variable !! "product";
       Some (trips_hub_to_customer
               ++ [{| origin := o; destination := d; product_type := p;
                      product_quantity := value |}])
     else Some trips_hub_to_customer);
  trips_hub_to_hub ←
    (if bool_decide (value ≠ 0) && isinstance variable ProductsMoveHubHub
     then
       o ← data variable !! "hub1";
       d ← data variable !! "hub2";
       p ← data variable !! "product";
       Some (trips_hub_to_hub
               ++ [{| origin := o; destination := d; product_type := p;
                      product_quantity := value |}])
     else Some trips_hub_to_hub);
  Some (trips_hub_to_customer, trips_hub_to_hub).

Definition _get_trips (solution : list (IntegerVariable * Z)) : option Trips :=
  r ← for_each solution _get_trips_step ([], []);
  Some {| hub_to_customer := r.1; hub_to_hub := r.2 |}.

(** [solve]: the solver is injected; it is built from the model and either
    returns an assignment or fails. *)
Definition solve (self : SolveProductTrips)
    (Mip_Solver : Model → Z → option (list (IntegerVariable * Z)))
    (max_seconds : Z) : option Trips :=
  m ← model self;
  solution ← Mip_Solver m max_seconds;
  _get_trips solution.
End DroneDelivery.

Arguments flights_customer_hub : simpl never.
Arguments products_move_customer_hub : simpl never.
Arguments flights_hub_hub : simpl never.
Arguments products_move_hub_hub : simpl never.

(** ** Closed forms used to state the properties

    The definitions of this section are not part of the program: they spell
    out, index tuple by index tuple, what each family is expected to be, and
    the theorems below compare the program with them. *)

(** The keys of a dictionary comprehension over [ks], in insertion order:
    every key at its first occurrence. *)
Definition first_occurrences {K : Type} `{EqDecision K} (acc ks : list K)
  : list K :=
  foldl (λ acc k, if decide (k ∈ acc) then acc else acc ++ [k]) acc ks.

(** How many times [x] occurs in [l]. *)
Definition occurrences {A : Type} `{EqDecision A} (x : A) (l : list A) : nat :=
  length (filter (λ y, y = x) l).

Section ClosedForms.
Context {Customer Hub Product Location : Type}.
Context `{ProblemObjects Customer Hub Product Location}.

Local Abbreviation IntegerVariable := (@IntegerVariable Customer Hub Product).
Local Abbreviation Trip := (@Trip Customer Hub Product).
Local Abbreviation Constraint := (@Constraint Customer Hub Product).
Local Abbreviation SolveProductTrips :=
  (@SolveProductTrips Customer Hub Product Location).

(** Ordered pairs of distinct hubs. *)
Definition spec_hub_pairs (hubs : list Hub) : list (Hub * Hub) :=
  filter (λ k, k.1 ≠ k.2) (list_prod hubs hubs).

(** Pairs whose product is a key of the customer's demand dictionary. *)
Definition spec_demand_pairs (customers : list Customer)
    (products : list Product) : list (Customer * Product) :=
  filter (λ k, k.2 ∈ dom (customer_demand k.1)) (list_prod customers products).

(** Pairs whose demanded quantity is not zero. *)
Definition spec_nonzero_demand_pairs (customers : list Customer)
    (products : list Product) : list (Customer * Product) :=
  filter (λ k, default 0 (customer_demand k.1 !! k.2) ≠ 0)
    (list_prod customers products).

Definition spec_demand_constraint (hubs : list Hub) (k : Customer * Product)
  : Constraint :=
  EqualityConstraint
    (map (λ hub, (products_move_customer_hub (k.1, hub, k.2), 1)) hubs)
    (default 0 (customer_demand k.1 !! k.2)).

Definition spec_demand_family (customers : list Customer)
    (products : list Product) (hubs : list Hub) : list Constraint :=
  map (spec_demand_constraint hubs) (spec_demand_pairs customers products).

Definition spec_supply_constraint (customers : list Customer)
    (hubs : list Hub) (k : Hub * Product) : Constraint :=
  LE_InequalityConstraint
    (le_sub
       (map (λ customer, (products_move_customer_hub (customer, k.1, k.2), 1))
          customers)
       (flat_map
          (λ hub_, [(products_move_hub_hub (hub_, k.1, k.2), 1);
                    (products_move_hub_hub (k.1, hub_, k.2), -1)])
          (filter (λ hub_, hub_ ≠ k.1) hubs)))
    (get_available_items k.1 k.2).

Definition spec_supply_family (customers : list Customer)
    (products : list Product) (hubs : list Hub) : list Constraint :=
  map (spec_supply_constraint customers hubs) (list_prod hubs products).

Definition spec_trips_constraint (capacity : Z) (products : list Product)
    (k : Customer * Hub) : Constraint :=
  LE_InequalityConstraint
    (le_sub
       (map (λ product, (products_move_customer_hub (k.1, k.2, product), 1))
          products)
       [(flights_customer_hub k, capacity)])
    0.

Definition spec_trips_family (capacity : Z) (customers : list Customer)
    (products : list Product) (hubs : list Hub) : list Constraint :=
  map (spec_trips_constraint capacity products) (list_prod customers hubs).

Definition spec_trips_hub_hub_constraint (capacity : Z)
    (products : list Product) (k : Hub * Hub) : Constraint :=
  LE_InequalityConstraint
    (le_sub
       (map (λ product, (products_move_hub_hub (k.1, k.2, product), 1))
          products)
       [(flights_hub_hub k, capacity)])
    0.

Definition spec_trips_hub_hub_family (capacity : Z) (products : list Product)
    (hubs : list Hub) : list Constraint :=
  map (spec_trips_hub_hub_constraint capacity products) (spec_hub_pairs hubs).

Definition spec_objective (env : Environment Location)
    (customers : list Customer) (hubs : list Hub) : LinearExpression :=
  map (λ k, (flights_customer_hub k,
             get_distance env (hub_location k.2) (customer_location k.1)))
    (list_prod customers hubs)
  ++ map (λ k, (flights_hub_hub k,
                get_distance env (hub_location k.1) (hub_location k.2)))
       (spec_hub_pairs hubs).

(** The object state once [get_variables] has run on an instance. *)
Definition catalogs_of (customers : list Customer) (hubs : list Hub)
    (products : list Product) (self : SolveProductTrips) : Prop :=
  n_flights_variables self = Some (_get_n_flights_variables customers hubs)
  ∧ n_product_move_variables self
    = Some (_get_n_products_move_variables customers hubs products)
  ∧ n_flights_hub_to_hub_variables self
    = Some (_get_n_flights_hub_to_hub hubs)
  ∧ n_products_move_hub_to_hub_variables self
    = Some (_get_n_products_move_hub_to_hub hubs products).

(** The variable list of the model: each catalog in insertion order. *)
Definition spec_variables (customers : list Customer) (hubs : list Hub)
    (products : list Product) : list IntegerVariable :=
  map flights_customer_hub (first_occurrences [] (list_prod customers hubs))
  ++ map products_move_customer_hub
       (first_occurrences [] (product3 customers hubs products))
  ++ map flights_hub_hub (first_occurrences [] (spec_hub_pairs hubs))
  ++ map products_move_hub_hub
       (first_occurrences []
          (filter (λ k, k.1.1 ≠ k.1.2) (product3 hubs hubs products))).

(** The value an assignment gives to a variable: a solution is a
    dictionary, and a variable it does not mention counts for 0. *)
Definition value_in (solution : list (IntegerVariable * Z))
    (v : IntegerVariable) : Z :=
  default 0 (dict_get v solution).

(** The units delivered to [customer] of [product] according to a list of
    trips. *)
Definition delivered (trips : list Trip) (customer : Customer)
    (product : Product) : Z :=
  sumZ (map product_quantity
          (filter (λ t, destination t = OCustomer customer
                        ∧ product_type t = OProduct product) trips)).

(** An assignment respects the bounds of a variable. *)
Definition within_bounds (ρ : IntegerVariable → Z) (v : IntegerVariable)
  : Prop :=
  lower_bound v ≤ ρ v
  ∧ match upper_bound v with Some u => ρ v ≤ u | None => True end.

Global Instance holds_dec (ρ : IntegerVariable → Z) c : Decision (holds ρ c).
Proof. destruct c; simpl; apply _. Defined.

Global Instance within_bounds_dec ρ v : Decision (within_bounds ρ v).
Proof. unfold within_bounds. destruct (upper_bound v); apply _. Defined.

(** An entry of the solution whose variable is tagged with the given
    customer and product. *)
Definition for_pair (customer : Customer) (product : Product)
    (e : IntegerVariable * Z) : Prop :=
  data e.1 !! "customer" = Some (OCustomer customer)
  ∧ data e.1 !! "product" = Some (OProduct product).

Global Instance for_pair_dec customer product e :
  Decision (for_pair customer product e).
Proof. unfold for_pair. apply _. Defined.

(** An entry of the solution that yields a trip: a variable of the given
    class with a non-zero value. *)
Definition moved (c : VariableClass) (e : IntegerVariable * Z) : Prop :=
  e.2 ≠ 0 ∧ class_of e.1 = c.

Global Instance moved_dec c e : Decision (moved c e).
Proof. unfold moved. apply _. Defined.

(** The trip [t] is read off the entry [e]: origin, destination and product
    are the values stored under the keys [o], [d] and ["product"] of the
    variable's [data], the quantity is the assigned value. *)
Definition reads (o d : string) (e : IntegerVariable * Z) (t : Trip) : Prop :=
  data e.1 !! o = Some (origin t)
  ∧ data e.1 !! d = Some (destination t)
  ∧ data e.1 !! "product" = Some (product_type t)
  ∧ product_quantity t = e.2.

(** A move variable carries the index tuple the interpreter reads. *)
Definition tagged (v : IntegerVariable) : Prop :=
  (class_of v = ProductsMoveCustomerHub →
   is_Some (data v !! "hub") ∧ is_Some (data v !! "customer")
   ∧ is_Some (data v !! "product"))
  ∧ (class_of v = ProductsMoveHubHub →
     is_Some (data v !! "hub1") ∧ is_Some (data v !! "hub2")
     ∧ is_Some (data v !! "product")).

(** An assignment is feasible for a model when it satisfies every constraint
    and respects the bounds of every variable. *)
Definition feasible (m : @Model Customer Hub Product)
    (ρ : IntegerVariable → Z) : Prop :=
  Forall (holds ρ) (constraints m)
  ∧ Forall (within_bounds ρ) (decision_variables m).

Global Instance feasible_dec m ρ : Decision (feasible m ρ).
Proof. unfold feasible. apply _. Defined.

(** The units flown from [hub] to [customer] according to a list of trips. *)
Definition shipped (trips : list Trip) (hub : Hub) (customer : Customer) : Z :=
  sumZ (map product_quantity
          (filter (λ t, origin t = OHub hub
                        ∧ destination t = OCustomer customer) trips)).

(** An entry of the solution whose variable is tagged with the given
    customer and hub. *)
Definition on_leg (customer : Customer) (hub : Hub)
    (e : IntegerVariable * Z) : Prop :=
  data e.1 !! "customer" = Some (OCustomer customer)
  ∧ data e.1 !! "hub" = Some (OHub hub).

Global Instance on_leg_dec customer hub e : Decision (on_leg customer hub e).
Proof. unfold on_leg. apply _. Defined.
End ClosedForms.

(** ** A concrete instance: customers, hubs and products numbered by [nat] *)
Module Sample.
Definition demand_of (c : nat) : gmap nat Z :=
  match c with
  | O => {[ 0%nat := 10 ]}
  | 1%nat => {[ 0%nat := 0 ]}
  | 2%nat => {[ 0%nat := 8; 1%nat := 3 ]}
  | _ => ∅
  end.

Definition stock_of (h p : nat) : Z :=
  match h, p with
  | O, O => 10
  | 1%nat, O => 5
  | _, _ => 0
  end.

(** Hubs 0 and 1 stand on the same spot. *)
#[export] Instance objects : ProblemObjects nat nat nat nat := {|
  customer_location c := (10 + c)%nat;
  customer_demand := demand_of;
  hub_location h := Nat.div2 h;
  get_available_items := stock_of;
  str_customer c := "c" +:+ pretty c;
  str_hub h := "h" +:+ pretty h;
  str_product p := "p" +:+ pretty p
|}.

Definition env : Environment nat :=
  {| get_distance a b := Z.abs (Z.of_nat a - Z.of_nat b) |}.

(** One customer asking for 10 units of product 0, two hubs: everything is
    flown from hub 0 in two flights. *)
Definition served_solution : list (IntegerVariable (Customer:=nat) * Z) :=
  [(flights_customer_hub (0%nat, 0%nat), 2);
   (flights_customer_hub (0%nat, 1%nat), 0);
   (products_move_customer_hub (0%nat, 0%nat, 0%nat), 10);
   (products_move_customer_hub (0%nat, 1%nat, 0%nat), 0);
   (flights_hub_hub (0%nat, 1%nat), 0);
   (flights_hub_hub (1%nat, 0%nat), 0);
   (products_move_hub_hub (0%nat, 1%nat, 0%nat), 0);
   (products_move_hub_hub (1%nat, 0%nat, 0%nat), 0)].

(** No customer, two hubs: hub 0 sends 3 units of product 0 to hub 1. *)
Definition transfer_solution : list (IntegerVariable (Customer:=nat) * Z) :=
  [(flights_hub_hub (0%nat, 1%nat), 1);
   (flights_hub_hub (1%nat, 0%nat), 0);
   (products_move_hub_hub (0%nat, 1%nat, 0%nat), 3);
   (products_move_hub_hub (1%nat, 0%nat, 0%nat), 0)].

(** Customer 3 asks for nothing and is sent 5 units of product 0. *)
Definition unasked_solution : list (IntegerVariable (Customer:=nat) * Z) :=
  [(flights_customer_hub (3%nat, 0%nat), 1);
   (products_move_customer_hub (3%nat, 0%nat, 0%nat), 5)].

(** Customer 0 asks for product 0 only; product 1 is on offer too. *)
Definition two_products_solution
  : list (IntegerVariable (Customer:=nat) * Z) :=
  [(flights_customer_hub (0%nat, 0%nat), 2);
   (products_move_customer_hub (0%nat, 0%nat, 0%nat), 10);
   (products_move_customer_hub (0%nat, 0%nat, 1%nat), 0)].

(** Customer 2 asks for products 0 and 1; only product 0 is on offer. *)
Definition partial_offer_solution
  : list (IntegerVariable (Customer:=nat) * Z) :=
  [(flights_customer_hub (2%nat, 0%nat), 2);
   (products_move_customer_hub (2%nat, 0%nat, 0%nat), 8)].

(** Hub 0 is listed twice; customer 0 is sent 5 units of product 0. *)
Definition repeated_hub_solution
  : list (IntegerVariable (Customer:=nat) * Z) :=
  [(flights_customer_hub (0%nat, 0%nat), 1);
   (products_move_customer_hub (0%nat, 0%nat, 0%nat), 5)].

(** Customer 1 lists product 0 with quantity 0; three empty flights. *)
Definition grounded_solution
  : list (IntegerVariable (Customer:=nat) * Z) :=
  [(flights_customer_hub (1%nat, 0%nat), 3);
   (products_move_customer_hub (1%nat, 0%nat, 0%nat), 0)].

(** An object on which [get_variables] has not run yet. *)
Definition fresh_self : SolveProductTrips (Customer:=nat) (Hub:=nat)
                          (Product:=nat) (Location:=nat) :=
  {| environment := env;
     max_flight_capacity := 5;
     n_flights_variables := None;
     n_product_move_variables := None;
     n_flights_hub_to_hub_variables := None;
     n_products_move_hub_to_hub_variables := None;
     model := None |}.
End Sample.
Import Sample.


(** * Properties *)

(** ** Loops, sums and dictionaries *)

Lemma for_each_app {A B : Type} (xs : list A) (body : list B → A → option (list B))
    (g : A → list B) (s : list B) :
  (∀ s x, x ∈ xs → body s x = Some (s ++ g x)) →
  for_each xs body s = Some (s ++ flat_map g xs).
Proof.
  revert s. induction xs as [|x xs IH]; intros s Hbody; simpl.
  - by rewrite app_nil_r.
  - rewrite Hbody by left. simpl. rewrite IH.
    + by rewrite app_assoc.
    + intros s' y Hy. apply Hbody. by right.
Qed.

Lemma for_each_nil_app {A B : Type} (xs : list A)
    (body : list B → A → option (list B)) (g : A → list B) :
  (∀ s x, x ∈ xs → body s x = Some (s ++ g x)) →
  for_each xs body [] = Some (flat_map g xs).
Proof. intros Hbody. by rewrite (for_each_app xs body g []). Qed.

Lemma flat_map_singleton {A B : Type} (f : A → B) (xs : list A) :
  flat_map (λ x, [f x]) xs = map f xs.
Proof. induction xs; simpl; congruence. Qed.

Lemma flat_map_guard {A B : Type} (P : A → Prop) `{∀ x, Decision (P x)}
    (f : A → list B) (xs : list A) :
  flat_map (λ x, if decide (P x) then f x else []) xs = flat_map f (filter P xs).
Proof.
  induction xs as [|x xs IH]; simpl; [done|].
  rewrite filter_cons. destruct (decide (P x)); simpl; congruence.
Qed.

Lemma flat_map_filter {A B : Type} (P : A → Prop) `{∀ x, Decision (P x)}
    (f : A → B) (xs : list A) :
  flat_map (λ x, if decide (P x) then [f x] else []) xs = map f (filter P xs).
Proof. by rewrite (flat_map_guard P), flat_map_singleton. Qed.

Lemma sumZ_app (l1 l2 : list Z) : sumZ (l1 ++ l2) = sumZ l1 + sumZ l2.
Proof. induction l1; simpl; lia. Qed.

Lemma sumZ_zero {A : Type} (f : A → Z) (xs : list A) :
  (∀ x, x ∈ xs → f x = 0) → sumZ (map f xs) = 0.
Proof.
  induction xs as [|x xs IH]; intros Hf; simpl; [done|].
  rewrite Hf by left. rewrite IH; [done|]. intros y Hy. apply Hf. by right.
Qed.

Lemma sumZ_perm (l1 l2 : list Z) : l1 ≡ₚ l2 → sumZ l1 = sumZ l2.
Proof. induction 1; simpl; lia. Qed.

Section pydict_lemmas.
Context {K V : Type} `{EqDecision K}.
Implicit Types (k : K) (ks acc : list K) (val : K → V).

Lemma dict_set_map val k acc :
  dict_set k (val k) (map (λ k, (k, val k)) acc)
  = map (λ k, (k, val k)) (if decide (k ∈ acc) then acc else acc ++ [k]).
Proof.
  induction acc as [|k' acc IH].
  - rewrite decide_False; [done|]. apply not_elem_of_nil.
  - cbn [dict_set map]. destruct (decide (k' = k)) as [->|Hne].
    + rewrite decide_True; [done|]. by left.
    + rewrite IH. destruct (decide (k ∈ acc)) as [Hin|Hnin].
      * rewrite decide_True; [done|]. by right.
      * rewrite decide_False; [done|].
        intros [?|?]%elem_of_cons; congruence.
Qed.

Lemma foldl_dict_set val acc ks :
  foldl (λ d k, dict_set k (val k) d) (map (λ k, (k, val k)) acc) ks
  = map (λ k, (k, val k)) (first_occurrences acc ks).
Proof.
  revert acc. induction ks as [|k ks IH]; intros acc; simpl; [done|].
  by rewrite dict_set_map, IH.
Qed.

(** A dictionary comprehension holds one entry per distinct key, at the
    position of the key's first occurrence. *)
Lemma dict_comprehension_closed val ks :
  dict_comprehension val ks = map (λ k, (k, val k)) (first_occurrences [] ks).
Proof. apply (foldl_dict_set val []). Qed.

Lemma elem_of_first_occurrences acc ks k :
  k ∈ first_occurrences acc ks ↔ k ∈ acc ∨ k ∈ ks.
Proof.
  revert acc. induction ks as [|k' ks IH]; intros acc; simpl.
  - rewrite elem_of_nil. tauto.
  - rewrite IH, elem_of_cons. destruct (decide (k' ∈ acc)) as [Hin|Hnin].
    + split; [tauto|]. intros [?|[->|?]]; tauto.
    + rewrite elem_of_app, list_elem_of_singleton. tauto.
Qed.

Lemma NoDup_first_occurrences acc ks :
  NoDup acc → NoDup (first_occurrences acc ks).
Proof.
  revert acc. induction ks as [|k ks IH]; intros acc Hacc; simpl; [done|].
  apply IH. destruct (decide (k ∈ acc)); [done|].
  apply NoDup_app. split_and!; [done| |apply NoDup_singleton].
  intros x Hx ->%list_elem_of_singleton. done.
Qed.

Lemma first_occurrences_NoDup acc ks :
  NoDup (acc ++ ks) → first_occurrences acc ks = acc ++ ks.
Proof.
  revert acc. induction ks as [|k ks IH]; intros acc Hnd; simpl.
  - by rewrite app_nil_r.
  - rewrite decide_False.
    + rewrite IH; rewrite <-app_assoc; done.
    + apply NoDup_app in Hnd as (_ & Hdisj & _). intros Hin.
      apply (Hdisj k Hin). by left.
Qed.

Lemma dict_get_map val ks k :
  dict_get k (map (λ k, (k, val k)) ks)
  = if decide (k ∈ ks) then Some (val k) else None.
Proof.
  induction ks as [|k' ks IH].
  - rewrite decide_False; [done|]. apply not_elem_of_nil.
  - cbn [dict_get map]. destruct (decide (k' = k)) as [->|Hne].
    + rewrite decide_True; [done|]. by left.
    + rewrite IH. destruct (decide (k ∈ ks)).
      * rewrite decide_True; [done|]. by right.
      * rewrite decide_False; [done|].
        intros [?|?]%elem_of_cons; congruence.
Qed.

(** Looking up a key that was enumerated never raises and gives the value
    built for that key. *)
Lemma dict_get_comprehension val ks k :
  k ∈ ks → dict_get k (dict_comprehension val ks) = Some (val k).
Proof.
  intros Hk. rewrite dict_comprehension_closed, dict_get_map.
  rewrite decide_True; [done|]. apply elem_of_first_occurrences. by right.
Qed.

Lemma dict_values_comprehension val ks :
  dict_values (dict_comprehension val ks) = map val (first_occurrences [] ks).
Proof.
  unfold dict_values. rewrite dict_comprehension_closed.
  rewrite <-list_fmap_compose. done.
Qed.

Lemma elem_of_dict_values_comprehension val ks v :
  v ∈ dict_values (dict_comprehension val ks) ↔ ∃ k, v = val k ∧ k ∈ ks.
Proof.
  rewrite dict_values_comprehension, list_elem_of_fmap.
  split; intros (k & -> & Hk); exists k; split; try done.
  - apply elem_of_first_occurrences in Hk as [Hk|Hk]; [|done].
    by apply elem_of_nil in Hk.
  - apply elem_of_first_occurrences. by right.
Qed.

(** The keys of a comprehension are pairwise distinct, and when the
    enumerated keys already are, the dictionary lists them in order. *)
Lemma dict_comprehension_keys_NoDup val ks :
  NoDup (dict_comprehension val ks).*1.
Proof.
  rewrite dict_comprehension_closed.
  assert (∀ l : list K, (map (λ k, (k, val k)) l).*1 = l) as ->.
  { intros l. induction l as [|k l IH]; [done|]. simpl. by rewrite <-IH at 2. }
  apply NoDup_first_occurrences, NoDup_nil_2.
Qed.

Lemma dict_comprehension_NoDup val ks :
  NoDup ks → dict_comprehension val ks = map (λ k, (k, val k)) ks.
Proof.
  intros Hks. rewrite dict_comprehension_closed.
  by rewrite (first_occurrences_NoDup [] ks).
Qed.

Lemma elem_of_first_occurrences_nil ks k :
  k ∈ first_occurrences [] ks ↔ k ∈ ks.
Proof.
  rewrite elem_of_first_occurrences, elem_of_nil. tauto.
Qed.

Lemma dict_get_comprehension_None val ks k :
  k ∉ ks → dict_get k (dict_comprehension val ks) = None.
Proof.
  intros Hk. rewrite dict_comprehension_closed, dict_get_map.
  rewrite decide_False; [done|]. by rewrite elem_of_first_occurrences_nil.
Qed.

Lemma dict_get_elem_of (d : list (K * V)) k v :
  dict_get k d = Some v → (k, v) ∈ d.
Proof.
  induction d as [|[k' v'] d IH]; simpl; [done|].
  destruct (decide (k' = k)) as [->|Hne].
  - intros [= ->]. by left.
  - intros Hget. right. by apply IH.
Qed.

Lemma dict_get_NoDup (d : list (K * V)) k v :
  NoDup d.*1 → (k, v) ∈ d → dict_get k d = Some v.
Proof.
  induction d as [|[k' v'] d IH]; simpl; [by intros _ ?%elem_of_nil|].
  intros [Hk' Hd]%NoDup_cons [[= -> ->]|Hin]%elem_of_cons.
  - by rewrite decide_True.
  - rewrite decide_False; [by apply IH|].
    intros ->. apply Hk'. apply list_elem_of_fmap. by exists (k, v).
Qed.

Lemma dict_get_is_Some (d : list (K * V)) k :
  k ∈ d.*1 → is_Some (dict_get k d).
Proof.
  induction d as [|[k' v'] d IH]; simpl; [by intros ?%elem_of_nil|].
  intros [->|Hin]%elem_of_cons.
  - rewrite decide_True; eauto.
  - destruct (decide (k' = k)); eauto.
Qed.
End pydict_lemmas.

Lemma elem_of_list_prod_iff {A B : Type} (xs : list A) (ys : list B) x y :
  (x, y) ∈ list_prod xs ys ↔ x ∈ xs ∧ y ∈ ys.
Proof. rewrite !list_elem_of_In. apply in_prod_iff. Qed.

Lemma elem_of_product3 {A B C : Type} (xs : list A) (ys : list B) (zs : list C)
    x y z :
  (x, y, z) ∈ product3 xs ys zs ↔ x ∈ xs ∧ y ∈ ys ∧ z ∈ zs.
Proof.
  unfold product3. rewrite !list_elem_of_In, in_flat_map. split.
  - intros (x' & Hx & Hin). apply in_flat_map in Hin as (y' & Hy & Hin).
    apply in_map_iff in Hin as (z' & [= -> -> ->] & Hz). done.
  - intros (Hx & Hy & Hz). exists x. split; [done|].
    apply in_flat_map. exists y. split; [done|].
    apply in_map_iff. by exists z.
Qed.

Lemma list_prod_nil_r {A B : Type} (xs : list A) :
  list_prod xs (@nil B) = [].
Proof. by induction xs. Qed.

Lemma NoDup_list_prod {A B : Type} (xs : list A) (ys : list B) :
  NoDup xs → NoDup ys → NoDup (list_prod xs ys).
Proof.
  intros Hxs Hys. induction Hxs as [|x xs Hx Hxs IH]; simpl; [constructor|].
  apply NoDup_app. split_and!; [|intros [x' y]|done].
  - by apply (NoDup_fmap_2 (pair x)).
  - intros (y' & [= -> ->] & _)%list_elem_of_fmap.
    intros [? _]%elem_of_list_prod_iff. done.
Qed.

(** Each pair of [itertools.product] occurs once per occurrence of its first
    component and per occurrence of its second. *)
Lemma occurrences_cons {A : Type} `{EqDecision A} (x y : A) (l : list A) :
  occurrences x (y :: l)
  = ((if decide (y = x) then 1 else 0) + occurrences x l)%nat.
Proof.
  unfold occurrences. rewrite filter_cons. by destruct (decide (y = x)).
Qed.

Lemma occurrences_app {A : Type} `{EqDecision A} (x : A) (l k : list A) :
  occurrences x (l ++ k) = (occurrences x l + occurrences x k)%nat.
Proof. unfold occurrences. by rewrite filter_app, length_app. Qed.

Lemma occurrences_list_prod {A B : Type} `{EqDecision A, EqDecision B}
    (x : A) (y : B) (xs : list A) (ys : list B) :
  occurrences (x, y) (list_prod xs ys)
  = (occurrences x xs * occurrences y ys)%nat.
Proof.
  induction xs as [|x' xs IH]; simpl; [done|].
  rewrite occurrences_app, IH, occurrences_cons.
  assert (occurrences (x, y) (map (λ y', (x', y')) ys)
          = if decide (x' = x) then occurrences y ys else 0%nat) as ->.
  { clear IH. induction ys as [|y' ys IHy]; simpl.
    - by destruct (decide (x' = x)).
    - rewrite !occurrences_cons, IHy.
      destruct (decide (x' = x)) as [->|Hx], (decide (y' = y)) as [->|Hy].
      + by rewrite decide_True.
      + rewrite decide_False; [done|]. by intros [? ?]%pair_equal_spec.
      + rewrite decide_False; [done|]. by intros [? ?]%pair_equal_spec.
      + rewrite decide_False; [done|]. by intros [? ?]%pair_equal_spec. }
  destruct (decide (x' = x)); lia.
Qed.

Lemma occurrences_filter {A : Type} `{EqDecision A} (P : A → Prop)
    `{∀ x, Decision (P x)} (x : A) (l : list A) :
  occurrences x (filter P l)
  = if decide (P x) then occurrences x l else 0%nat.
Proof.
  induction l as [|y l IH]; simpl; [by destruct (decide (P x))|].
  rewrite filter_cons. destruct (decide (P y)) as [HPy|HPy].
  - rewrite !occurrences_cons, IH.
    destruct (decide (P x)) as [HPx|HPx]; [done|].
    rewrite decide_False; [done|]. by intros ->.
  - rewrite IH, occurrences_cons.
    destruct (decide (P x)) as [HPx|HPx]; [|done].
    rewrite decide_False; [done|]. by intros ->.
Qed.

Lemma occurrences_NoDup {A : Type} `{EqDecision A} (x : A) (l : list A) :
  NoDup l → x ∈ l → occurrences x l = 1%nat.
Proof.
  induction 1 as [|y l Hy Hl IH]; intros Hx; [by apply elem_of_nil in Hx|].
  rewrite occurrences_cons. destruct (decide (y = x)) as [->|Hne].
  - assert (occurrences x l = 0%nat) as ->; [|done].
    unfold occurrences.
    assert (filter (λ y, y = x) l = []) as ->; [|done].
    apply elem_of_nil_inv. intros z [-> Hz]%list_elem_of_filter. done.
  - apply elem_of_cons in Hx as [?|Hx]; [done|]. by rewrite IH.
Qed.

(** ** The constraint families in closed form *)
Section Families.
Context {Customer Hub Product Location : Type}.
Context `{ProblemObjects Customer Hub Product Location}.

Local Abbreviation IntegerVariable := (@IntegerVariable Customer Hub Product).
Local Abbreviation LinearExpression :=
  (@LinearExpression Customer Hub Product).
Local Abbreviation SolveProductTrips :=
  (@SolveProductTrips Customer Hub Product Location).

Implicit Types (customers : list Customer) (hubs : list Hub)
  (products : list Product) (self : SolveProductTrips)
  (ρ : IntegerVariable → Z).

Lemma get_variables_catalogs self customers hubs products :
  catalogs_of customers hubs products
    (get_variables self customers hubs products).1.
Proof. by repeat split. Qed.

(** The loop that sums the customer-bound move variables of one
    (customer, product) pair over the hubs never raises. *)
Lemma demand_lhs_loop self customers hubs products customer product :
  catalogs_of customers hubs products self →
  customer ∈ customers → product ∈ products →
  for_each hubs
    (λ (lhs : LinearExpression) hub,
       d ← n_product_move_variables self;
       variable ← dict_get (customer, hub, product) d;
       Some (add_variable lhs variable 1))
    LinearExpression_new
  = Some (map (λ hub, (products_move_customer_hub (customer, hub, product), 1))
            hubs).
Proof.
  intros (_ & Hd & _ & _) Hc Hp. rewrite <-flat_map_singleton.
  apply for_each_nil_app. intros lhs hub Hh. rewrite Hd. simpl.
  unfold _get_n_products_move_variables.
  rewrite dict_get_comprehension by by apply elem_of_product3.
  done.
Qed.

Lemma demand_constraints_closed self customers hubs products :
  catalogs_of customers hubs products self →
  _get_demand_constraints self customers products hubs
  = Some (spec_demand_family customers products hubs).
Proof.
  intros Hcat. unfold _get_demand_constraints, spec_demand_family,
    spec_demand_pairs.
  rewrite <-(flat_map_filter (λ k, k.2 ∈ dom (customer_demand k.1))).
  apply for_each_nil_app. intros constraints [customer product].
  intros [Hc Hp]%elem_of_list_prod_iff. simpl.
  case_bool_decide as Hdom.
  - rewrite (demand_lhs_loop self customers hubs products) by done. simpl.
    apply elem_of_dom in Hdom as [q Hq]. rewrite Hq. simpl.
    rewrite decide_True by (apply elem_of_dom; eauto).
    unfold spec_demand_constraint. simpl. by rewrite Hq.
  - by rewrite decide_False, app_nil_r.
Qed.

Lemma hub_hub_key hubs products hub1 hub2 product :
  hub1 ∈ hubs → hub2 ∈ hubs → product ∈ products → hub1 ≠ hub2 →
  dict_get (hub1, hub2, product)
    (_get_n_products_move_hub_to_hub hubs products)
  = Some (products_move_hub_hub (hub1, hub2, product)).
Proof.
  intros Hh1 Hh2 Hp Hne. unfold _get_n_products_move_hub_to_hub.
  apply dict_get_comprehension, list_elem_of_filter.
  split; [done|]. by apply elem_of_product3.
Qed.

Lemma hub_pair_key hubs hub1 hub2 :
  hub1 ∈ hubs → hub2 ∈ hubs → hub1 ≠ hub2 →
  dict_get (hub1, hub2) (_get_n_flights_hub_to_hub hubs)
  = Some (flights_hub_hub (hub1, hub2)).
Proof.
  intros Hh1 Hh2 Hne. unfold _get_n_flights_hub_to_hub.
  apply dict_get_comprehension, list_elem_of_filter.
  split; [done|]. by apply elem_of_list_prod_iff.
Qed.

Lemma customer_hub_key customers hubs customer hub :
  customer ∈ customers → hub ∈ hubs →
  dict_get (customer, hub) (_get_n_flights_variables customers hubs)
  = Some (flights_customer_hub (customer, hub)).
Proof.
  intros Hc Hh. unfold _get_n_flights_variables.
  by apply dict_get_comprehension, elem_of_list_prod_iff.
Qed.

Lemma outflow_loop self customers hubs products hub product :
  catalogs_of customers hubs products self →
  hub ∈ hubs → product ∈ products →
  for_each customers
    (λ (le_1 : LinearExpression) customer,
       d ← n_product_move_variables self;
       variable ← dict_get (customer, hub, product) d;
       Some (add_variable le_1 variable 1))
    LinearExpression_new
  = Some (map (λ customer,
                 (products_move_customer_hub (customer, hub, product), 1))
            customers).
Proof.
  intros (_ & Hd & _ & _) Hh Hp. rewrite <-flat_map_singleton.
  apply for_each_nil_app. intros le_1 customer Hc. rewrite Hd. simpl.
  unfold _get_n_products_move_variables.
  rewrite dict_get_comprehension by by apply elem_of_product3.
  done.
Qed.

Lemma net_inflow_loop self customers hubs products hub product :
  catalogs_of customers hubs products self →
  hub ∈ hubs → product ∈ products →
  for_each hubs
    (λ (le_2 : LinearExpression) hub_,
       if decide (hub_ ≠ hub) then
         d ← n_products_move_hub_to_hub_variables self;
         variable ← dict_get (hub_, hub, product) d;
         let le_2 := add_variable le_2 variable 1 in
         d ← n_products_move_hub_to_hub_variables self;
         variable ← dict_get (hub, hub_, product) d;
         Some (add_variable le_2 variable (-1))
       else Some le_2)
    LinearExpression_new
  = Some (flat_map
            (λ hub_, [(products_move_hub_hub (hub_, hub, product), 1);
                      (products_move_hub_hub (hub, hub_, product), -1)])
            (filter (λ hub_, hub_ ≠ hub) hubs)).
Proof.
  intros (_ & _ & _ & Hd) Hh Hp.
  rewrite <-(flat_map_guard (λ hub_, hub_ ≠ hub)).
  apply for_each_nil_app. intros le_2 hub_ Hh_.
  destruct (decide (hub_ ≠ hub)) as [Hne|Heq]; [|by rewrite app_nil_r].
  rewrite Hd. simpl. rewrite !hub_hub_key by done. simpl.
  unfold add_variable. by rewrite <-app_assoc.
Qed.

Lemma supply_constraints_closed self customers hubs products :
  catalogs_of customers hubs products self →
  _get_supply_constraints self customers products hubs
  = Some (spec_supply_family customers products hubs).
Proof.
  intros Hcat. unfold _get_supply_constraints, spec_supply_family.
  rewrite <-flat_map_singleton.
  apply for_each_nil_app. intros constraints [hub product].
  intros [Hh Hp]%elem_of_list_prod_iff. simpl.
  rewrite (outflow_loop self customers hubs products) by done. simpl.
  rewrite (net_inflow_loop self customers hubs products) by done. done.
Qed.

Lemma customer_trip_loop self customers hubs products customer hub :
  catalogs_of customers hubs products self →
  customer ∈ customers → hub ∈ hubs →
  for_each products
    (λ (le_1 : LinearExpression) product,
       d ← n_product_move_variables self;
       variable ← dict_get (customer, hub, product) d;
       Some (add_variable le_1 variable 1))
    LinearExpression_new
  = Some (map (λ product,
                 (products_move_customer_hub (customer, hub, product), 1))
            products).
Proof.
  intros (_ & Hd & _ & _) Hc Hh. rewrite <-flat_map_singleton.
  apply for_each_nil_app. intros le_1 product Hp. rewrite Hd. simpl.
  unfold _get_n_products_move_variables.
  rewrite dict_get_comprehension by by apply elem_of_product3.
  done.
Qed.

Lemma hub_trip_loop self customers hubs products hub1 hub2 :
  catalogs_of customers hubs products self →
  hub1 ∈ hubs → hub2 ∈ hubs → hub1 ≠ hub2 →
  for_each products
    (λ (le_1 : LinearExpression) product,
       d ← n_products_move_hub_to_hub_variables self;
       variable ← dict_get (hub1, hub2, product) d;
       Some (add_variable le_1 variable 1))
    LinearExpression_new
  = Some (map (λ product,
                 (products_move_hub_hub (hub1, hub2, product), 1))
            products).
Proof.
  intros (_ & _ & _ & Hd) Hh1 Hh2 Hne. rewrite <-flat_map_singleton.
  apply for_each_nil_app. intros le_1 product Hp. rewrite Hd. simpl.
  by rewrite hub_hub_key.
Qed.

Lemma trips_constraints_closed self customers hubs products :
  catalogs_of customers hubs products self →
  _get_trips_constraints self customers products hubs
  = Some (spec_trips_family (max_flight_capacity self)
            customers products hubs).
Proof.
  intros Hcat. unfold _get_trips_constraints, spec_trips_family.
  rewrite <-flat_map_singleton.
  apply for_each_nil_app. intros constraints [customer hub].
  intros [Hc Hh]%elem_of_list_prod_iff. simpl.
  rewrite (customer_trip_loop self customers hubs products) by done.
  destruct Hcat as (-> & _). simpl.
  by rewrite customer_hub_key.
Qed.

Lemma trips_hub_to_hub_constraints_closed self customers hubs products :
  catalogs_of customers hubs products self →
  _get_trips_hub_to_hub_constraints self products hubs
  = Some (spec_trips_hub_hub_family (max_flight_capacity self)
            products hubs).
Proof.
  intros Hcat. unfold _get_trips_hub_to_hub_constraints,
    spec_trips_hub_hub_family, spec_hub_pairs.
  rewrite <-(flat_map_filter (λ k : Hub * Hub, k.1 ≠ k.2)).
  apply for_each_nil_app. intros constraints [hub1 hub2].
  intros [Hh1 Hh2]%elem_of_list_prod_iff. simpl.
  destruct (decide (hub1 ≠ hub2)) as [Hne|Heq]; [|by rewrite app_nil_r].
  rewrite (hub_trip_loop self customers hubs products) by done.
  destruct Hcat as (_ & _ & -> & _). simpl.
  by rewrite hub_pair_key.
Qed.

Lemma get_constraints_closed self customers hubs products :
  catalogs_of customers hubs products self →
  get_constraints self customers hubs products
  = Some (spec_demand_family customers products hubs
          ++ spec_supply_family customers products hubs
          ++ spec_trips_family (max_flight_capacity self)
               customers products hubs
          ++ spec_trips_hub_hub_family (max_flight_capacity self)
               products hubs).
Proof.
  intros Hcat. unfold get_constraints.
  rewrite (demand_constraints_closed _ _ _ _ Hcat). simpl.
  rewrite (supply_constraints_closed _ _ _ _ Hcat). simpl.
  rewrite (trips_constraints_closed _ _ _ _ Hcat). simpl.
  by rewrite (trips_hub_to_hub_constraints_closed _ _ _ _ Hcat).
Qed.

Lemma customer_flights_loop self customers hubs products :
  catalogs_of customers hubs products self →
  for_each (list_prod customers hubs)
    (λ (le : LinearExpression) '(customer, hub),
       d ← n_flights_variables self;
       variable ← dict_get (customer, hub) d;
       Some (add_variable le variable
               (get_distance (environment self)
                  (hub_location hub) (customer_location customer))))
    LinearExpression_new
  = Some (map (λ k, (flights_customer_hub k,
                     get_distance (environment self)
                       (hub_location k.2) (customer_location k.1)))
            (list_prod customers hubs)).
Proof.
  intros (Hd & _). rewrite <-flat_map_singleton.
  apply for_each_nil_app.
  intros le [customer hub] [Hc Hh]%elem_of_list_prod_iff.
  rewrite Hd. simpl. by rewrite customer_hub_key.
Qed.

Lemma get_objective_closed self customers hubs products :
  catalogs_of customers hubs products self →
  get_objective self customers hubs
  = Some (spec_objective (environment self) customers hubs).
Proof.
  intros Hcat. unfold get_objective, spec_objective, spec_hub_pairs.
  rewrite (customer_flights_loop self customers hubs products) by done.
  simpl. rewrite <-(flat_map_filter (λ k : Hub * Hub, k.1 ≠ k.2)).
  apply for_each_app.
  intros le [hub1 hub2] [Hh1 Hh2]%elem_of_list_prod_iff. simpl.
  destruct (decide (hub1 ≠ hub2)); [|by rewrite app_nil_r].
  destruct Hcat as (_ & _ & -> & _). simpl. by rewrite hub_pair_key.
Qed.

Lemma get_variables_closed self customers hubs products :
  (get_variables self customers hubs products).2
  = spec_variables customers hubs products.
Proof.
  unfold get_variables, spec_variables. simpl.
  unfold _get_n_flights_variables, _get_n_products_move_variables,
    _get_n_flights_hub_to_hub, _get_n_products_move_hub_to_hub.
  by rewrite !dict_values_comprehension.
Qed.

(** The constructor never raises, whatever the instance; the object it
    returns holds the four catalogs and the packaged model. *)
Lemma init_closed customers hubs products capacity env :
  __init__ customers hubs products capacity env
  = Some {| environment := env;
            max_flight_capacity := capacity;
            n_flights_variables :=
              Some (_get_n_flights_variables customers hubs);
            n_product_move_variables :=
              Some (_get_n_products_move_variables customers hubs products);
            n_flights_hub_to_hub_variables :=
              Some (_get_n_flights_hub_to_hub hubs);
            n_products_move_hub_to_hub_variables :=
              Some (_get_n_products_move_hub_to_hub hubs products);
            model :=
              Some {| decision_variables :=
                        spec_variables customers hubs products;
                      objective := spec_objective env customers hubs;
                      constraints :=
                        spec_demand_family customers products hubs
                        ++ spec_supply_family customers products hubs
                        ++ spec_trips_family capacity customers products hubs
                        ++ spec_trips_hub_hub_family capacity products hubs
                   |} |}.
Proof.
  unfold __init__.
  set (self0 := {| environment := env; max_flight_capacity := capacity;
                   n_flights_variables := None;
                   n_product_move_variables := None;
                   n_flights_hub_to_hub_variables := None;
                   n_products_move_hub_to_hub_variables := None;
                   model := None |}).
  pose proof (get_variables_catalogs self0 customers hubs products) as Hcat.
  pose proof (get_variables_closed self0 customers hubs products) as Hvars.
  destruct (get_variables self0 customers hubs products) as [self vars] eqn:E.
  simpl in Hcat, Hvars. subst vars.
  assert (environment self = env) as Henv by (by injection E as <- _).
  assert (max_flight_capacity self = capacity) as Hcap
    by (by injection E as <- _).
  rewrite (get_objective_closed _ _ _ _ Hcat). simpl.
  rewrite (get_constraints_closed _ _ _ _ Hcat). simpl.
  rewrite Henv, Hcap. destruct Hcat as (-> & -> & -> & ->). done.
Qed.

Lemma init_catalogs customers hubs products capacity env self :
  __init__ customers hubs products capacity env = Some self →
  catalogs_of customers hubs products self
  ∧ max_flight_capacity self = capacity ∧ environment self = env.
Proof. rewrite init_closed. intros [= <-]. by repeat split. Qed.

(** *** What a constraint says about an assignment *)

Lemma le_eval_app ρ (le_1 le_2 : LinearExpression) :
  le_eval ρ (le_1 ++ le_2) = le_eval ρ le_1 + le_eval ρ le_2.
Proof. unfold le_eval. by rewrite map_app, sumZ_app. Qed.

Lemma le_eval_sub ρ (le_1 le_2 : LinearExpression) :
  le_eval ρ (le_sub le_1 le_2) = le_eval ρ le_1 - le_eval ρ le_2.
Proof.
  unfold le_sub. rewrite le_eval_app.
  enough (le_eval ρ (map (λ t, (t.1, - t.2)) le_2) = - le_eval ρ le_2) by lia.
  unfold le_eval. induction le_2 as [|[v c] le_2 IH]; simpl in *; lia.
Qed.

Lemma le_eval_weighted {A : Type} ρ (var : A → IntegerVariable)
    (coef : A → Z) (xs : list A) :
  le_eval ρ (map (λ x, (var x, coef x)) xs)
  = sumZ (map (λ x, coef x * ρ (var x)) xs).
Proof. unfold le_eval. induction xs; simpl; congruence. Qed.

Lemma le_eval_units {A : Type} ρ (var : A → IntegerVariable) (xs : list A) :
  le_eval ρ (map (λ x, (var x, 1)) xs) = sumZ (map (λ x, ρ (var x)) xs).
Proof. unfold le_eval. induction xs; simpl in *; lia. Qed.

Lemma le_eval_net {A : Type} ρ (v_in v_out : A → IntegerVariable)
    (xs : list A) :
  le_eval ρ (flat_map (λ x, [(v_in x, 1); (v_out x, -1)]) xs)
  = sumZ (map (λ x, ρ (v_in x) - ρ (v_out x)) xs).
Proof. unfold le_eval. induction xs; simpl in *; lia. Qed.

Lemma holds_demand ρ hubs (k : Customer * Product) :
  holds ρ (spec_demand_constraint hubs k)
  ↔ sumZ (map (λ hub, ρ (products_move_customer_hub (k.1, hub, k.2))) hubs)
    = default 0 (customer_demand k.1 !! k.2).
Proof. unfold spec_demand_constraint. simpl. by rewrite le_eval_units. Qed.

Lemma holds_supply ρ customers hubs (k : Hub * Product) :
  holds ρ (spec_supply_constraint customers hubs k)
  ↔ sumZ (map (λ customer,
                 ρ (products_move_customer_hub (customer, k.1, k.2)))
            customers)
    - sumZ (map (λ hub_, ρ (products_move_hub_hub (hub_, k.1, k.2))
                         - ρ (products_move_hub_hub (k.1, hub_, k.2)))
              (filter (λ hub_, hub_ ≠ k.1) hubs))
    ≤ get_available_items k.1 k.2.
Proof.
  unfold spec_supply_constraint. simpl.
  by rewrite le_eval_sub, le_eval_units, le_eval_net.
Qed.

Lemma holds_trips ρ capacity products (k : Customer * Hub) :
  holds ρ (spec_trips_constraint capacity products k)
  ↔ sumZ (map (λ product,
                 ρ (products_move_customer_hub (k.1, k.2, product)))
            products)
    - capacity * ρ (flights_customer_hub k) ≤ 0.
Proof.
  unfold spec_trips_constraint. simpl.
  rewrite le_eval_sub, le_eval_units. unfold le_eval. simpl.
  by rewrite Z.add_0_r.
Qed.

Lemma holds_trips_hub_hub ρ capacity products (k : Hub * Hub) :
  holds ρ (spec_trips_hub_hub_constraint capacity products k)
  ↔ sumZ (map (λ product,
                 ρ (products_move_hub_hub (k.1, k.2, product)))
            products)
    - capacity * ρ (flights_hub_hub k) ≤ 0.
Proof.
  unfold spec_trips_hub_hub_constraint. simpl.
  rewrite le_eval_sub, le_eval_units. unfold le_eval. simpl.
  by rewrite Z.add_0_r.
Qed.
End Families.

(** ** The built model *)
Section BuiltModel.
Context {Customer Hub Product Location : Type}.
Context `{ProblemObjects Customer Hub Product Location}.

Local Abbreviation IntegerVariable := (@IntegerVariable Customer Hub Product).
Local Abbreviation SolveProductTrips :=
  (@SolveProductTrips Customer Hub Product Location).

Implicit Types (customers : list Customer) (hubs : list Hub)
  (products : list Product) (self : SolveProductTrips)
  (env : Environment Location) (ρ : IntegerVariable → Z).

Lemma only_inequalities_after_demand customers hubs products capacity :
  Forall (λ c, ∃ lhs rhs, c = LE_InequalityConstraint lhs rhs)
    (spec_supply_family customers products hubs
     ++ spec_trips_family capacity customers products hubs
     ++ spec_trips_hub_hub_family capacity products hubs).
Proof.
  rewrite !Forall_app. unfold spec_supply_family, spec_trips_family,
    spec_trips_hub_hub_family.
  split_and!; apply Forall_forall; intros c (k & -> & _)%list_elem_of_fmap;
    eexists _, _; reflexivity.
Qed.

(** C1, as amended.  The demand family stands at the head of the constraint
    list of the built model and is followed by inequalities only.  It holds
    one equality constraint per occurrence, in the product of the customer
    list and the product list, of a (customer, product) pair whose product
    is a key of the customer's demand dictionary, whatever the quantity
    stored under it (0 included): as many as the customer occurs times the
    product occurs, hence exactly one when neither list repeats an element.
    The constraint of a pair says that the customer-bound move variables of
    the pair, summed over the hub list, equal the demanded quantity. *)
Theorem demand_family_one_per_demand_key customers hubs products capacity env :
  ∃ self m family rest,
    __init__ customers hubs products capacity env = Some self
    ∧ model self = Some m
    ∧ _get_demand_constraints self customers products hubs = Some family
    ∧ constraints m = family ++ rest
    ∧ Forall (λ c, ∃ lhs rhs, c = LE_InequalityConstraint lhs rhs) rest
    ∧ family = map (spec_demand_constraint hubs)
                 (spec_demand_pairs customers products)
    ∧ (∀ customer product,
         (customer, product) ∈ spec_demand_pairs customers products
         ↔ customer ∈ customers ∧ product ∈ products
           ∧ is_Some (customer_demand customer !! product))
    ∧ (∀ customer product,
         occurrences (customer, product) (spec_demand_pairs customers products)
         = if decide (is_Some (customer_demand customer !! product))
           then (occurrences customer customers
                 * occurrences product products)%nat
           else 0%nat)
    ∧ (NoDup customers → NoDup products →
       NoDup (spec_demand_pairs customers products)
       ∧ ∀ customer product,
           customer ∈ customers → product ∈ products →
           is_Some (customer_demand customer !! product) →
           occurrences (customer, product)
             (spec_demand_pairs customers products) = 1%nat)
    ∧ (∀ customer product,
         ∃ lhs, spec_demand_constraint hubs (customer, product)
                = EqualityConstraint lhs
                    (default 0 (customer_demand customer !! product))
           ∧ ∀ ρ, le_eval ρ lhs
                  = sumZ (map (λ hub, ρ (products_move_customer_hub
                                           (customer, hub, product))) hubs))
    ∧ (∀ customer hub product,
         customer ∈ customers → hub ∈ hubs → product ∈ products →
         n_product_move_variables self
           ≫= dict_get (customer, hub, product)
         = Some (products_move_customer_hub (customer, hub, product))).
Proof.
  eexists _, _, _, _. split; [apply init_closed|]. split; [done|].
  split; [by apply demand_constraints_closed|]. split; [done|].
  assert (∀ customer product,
            occurrences (customer, product)
              (spec_demand_pairs customers products)
            = if decide (is_Some (customer_demand customer !! product))
              then (occurrences customer customers
                    * occurrences product products)%nat
              else 0%nat) as Hocc.
  { intros customer product. unfold spec_demand_pairs.
    rewrite occurrences_filter, occurrences_list_prod. simpl.
    destruct (decide (product ∈ dom (customer_demand customer))) as [Hd|Hd];
      rewrite elem_of_dom in Hd.
    - by rewrite decide_True.
    - by rewrite decide_False. }
  split_and!.
  - apply only_inequalities_after_demand.
  - done.
  - intros customer product. unfold spec_demand_pairs.
    rewrite list_elem_of_filter, elem_of_list_prod_iff, elem_of_dom. simpl.
    tauto.
  - done.
  - intros Hc Hp. split; [by apply NoDup_filter, NoDup_list_prod|].
    intros customer product Hcin Hpin Hdom.
    rewrite Hocc, decide_True by done.
    by rewrite !occurrences_NoDup.
  - intros customer product. eexists. split; [done|].
    intros ρ. simpl. apply le_eval_units.
  - intros customer hub product Hc Hh Hp. simpl.
    by apply dict_get_comprehension, elem_of_product3.
Qed.

(** C2, as amended.  In the constraint list of the built model the supply
    family comes right after the demand family.  It holds one [≤]
    constraint per occurrence of a (hub, product) pair in the product of the
    hub list and the product list: as many as the hub occurs times the
    product occurs, hence exactly one when neither list repeats an element.
    The constraint of a pair says that the hub's shipments to customers,
    minus its net inflow from the other hubs, is at most what the hub has
    available. *)
Theorem supply_family_one_per_hub_product customers hubs products capacity env :
  ∃ self m f1 family f3 f4,
    __init__ customers hubs products capacity env = Some self
    ∧ model self = Some m
    ∧ _get_demand_constraints self customers products hubs = Some f1
    ∧ _get_supply_constraints self customers products hubs = Some family
    ∧ _get_trips_constraints self customers products hubs = Some f3
    ∧ _get_trips_hub_to_hub_constraints self products hubs = Some f4
    ∧ constraints m = f1 ++ family ++ f3 ++ f4
    ∧ family = map (spec_supply_constraint customers hubs)
                 (list_prod hubs products)
    ∧ (∀ hub product,
         (hub, product) ∈ list_prod hubs products
         ↔ hub ∈ hubs ∧ product ∈ products)
    ∧ (∀ hub product,
         occurrences (hub, product) (list_prod hubs products)
         = (occurrences hub hubs * occurrences product products)%nat)
    ∧ (NoDup hubs → NoDup products →
       NoDup (list_prod hubs products)
       ∧ ∀ hub product,
           hub ∈ hubs → product ∈ products →
           occurrences (hub, product) (list_prod hubs products) = 1%nat)
    ∧ (∀ hub product,
         ∃ lhs, spec_supply_constraint customers hubs (hub, product)
                = LE_InequalityConstraint lhs (get_available_items hub product)
           ∧ ∀ ρ, le_eval ρ lhs
                  = sumZ (map (λ customer,
                                 ρ (products_move_customer_hub
                                      (customer, hub, product))) customers)
                    - sumZ (map (λ hub_,
                                   ρ (products_move_hub_hub
                                        (hub_, hub, product))
                                   - ρ (products_move_hub_hub
                                          (hub, hub_, product)))
                              (filter (λ hub_, hub_ ≠ hub) hubs)))
    ∧ (∀ customer hub product,
         customer ∈ customers → hub ∈ hubs → product ∈ products →
         n_product_move_variables self
           ≫= dict_get (customer, hub, product)
         = Some (products_move_customer_hub (customer, hub, product)))
    ∧ (∀ hub1 hub2 product,
         hub1 ∈ hubs → hub2 ∈ hubs → product ∈ products → hub1 ≠ hub2 →
         n_products_move_hub_to_hub_variables self
           ≫= dict_get (hub1, hub2, product)
         = Some (products_move_hub_hub (hub1, hub2, product))).
Proof.
  eexists _, _, _, _, _, _. split; [apply init_closed|]. split; [done|].
  split; [by apply demand_constraints_closed|].
  split; [by apply supply_constraints_closed|].
  split; [by rewrite (trips_constraints_closed _ customers hubs products)|].
  split;
    [by rewrite (trips_hub_to_hub_constraints_closed _ customers hubs products)|].
  split; [done|]. split; [done|]. split_and!.
  - intros hub product. apply elem_of_list_prod_iff.
  - intros hub product. apply occurrences_list_prod.
  - intros Hh Hp. split; [by apply NoDup_list_prod|].
    intros hub product Hhin Hpin.
    by rewrite occurrences_list_prod, !occurrences_NoDup.
  - intros hub product. eexists. split; [done|].
    intros ρ. by rewrite le_eval_sub, le_eval_units, le_eval_net.
  - intros customer hub product Hc Hh Hp. simpl.
    by apply dict_get_comprehension, elem_of_product3.
  - intros hub1 hub2 product Hh1 Hh2 Hp Hne. simpl.
    by apply hub_hub_key.
Qed.

Lemma elem_of_spec_hub_pairs hubs hub1 hub2 :
  (hub1, hub2) ∈ spec_hub_pairs hubs ↔ hub1 ∈ hubs ∧ hub2 ∈ hubs ∧ hub1 ≠ hub2.
Proof.
  unfold spec_hub_pairs.
  rewrite list_elem_of_filter, elem_of_list_prod_iff. simpl. tauto.
Qed.

(** C3, as amended.  The two capacity families close the constraint list of
    the built model, the customer legs before the hub legs.  The first holds
    one constraint per occurrence of a (customer, hub) pair in the product
    of the customer list and the hub list, the second one per occurrence of
    an ordered pair of distinct hubs in the product of the hub list with
    itself: as many as the two components occur, hence exactly one per pair
    when no customer and no hub is repeated.  Each says that the units moved
    on the leg, minus the flight capacity times the number of flights on the
    leg, is at most 0; both use the capacity the builder was given. *)
Theorem trip_capacity_families customers hubs products capacity env :
  ∃ self m f1 f2 f3 f4,
    __init__ customers hubs products capacity env = Some self
    ∧ model self = Some m
    ∧ max_flight_capacity self = capacity
    ∧ _get_demand_constraints self customers products hubs = Some f1
    ∧ _get_supply_constraints self customers products hubs = Some f2
    ∧ _get_trips_constraints self customers products hubs = Some f3
    ∧ _get_trips_hub_to_hub_constraints self products hubs = Some f4
    ∧ constraints m = f1 ++ f2 ++ f3 ++ f4
    ∧ f3 = map (spec_trips_constraint capacity products)
             (list_prod customers hubs)
    ∧ f4 = map (spec_trips_hub_hub_constraint capacity products)
             (spec_hub_pairs hubs)
    ∧ (∀ customer hub,
         (customer, hub) ∈ list_prod customers hubs
         ↔ customer ∈ customers ∧ hub ∈ hubs)
    ∧ (∀ hub1 hub2,
         (hub1, hub2) ∈ spec_hub_pairs hubs
         ↔ hub1 ∈ hubs ∧ hub2 ∈ hubs ∧ hub1 ≠ hub2)
    ∧ (∀ customer hub,
         occurrences (customer, hub) (list_prod customers hubs)
         = (occurrences customer customers * occurrences hub hubs)%nat)
    ∧ (∀ hub1 hub2,
         occurrences (hub1, hub2) (spec_hub_pairs hubs)
         = if decide (hub1 ≠ hub2)
           then (occurrences hub1 hubs * occurrences hub2 hubs)%nat
           else 0%nat)
    ∧ (NoDup customers → NoDup hubs →
       NoDup (list_prod customers hubs)
       ∧ ∀ customer hub,
           customer ∈ customers → hub ∈ hubs →
           occurrences (customer, hub) (list_prod customers hubs) = 1%nat)
    ∧ (NoDup hubs →
       NoDup (spec_hub_pairs hubs)
       ∧ ∀ hub1 hub2,
           hub1 ∈ hubs → hub2 ∈ hubs → hub1 ≠ hub2 →
           occurrences (hub1, hub2) (spec_hub_pairs hubs) = 1%nat)
    ∧ (∀ customer hub,
         ∃ lhs, spec_trips_constraint capacity products (customer, hub)
                = LE_InequalityConstraint lhs 0
           ∧ ∀ ρ, le_eval ρ lhs
                  = sumZ (map (λ product,
                                 ρ (products_move_customer_hub
                                      (customer, hub, product))) products)
                    - capacity * ρ (flights_customer_hub (customer, hub)))
    ∧ (∀ hub1 hub2,
         ∃ lhs, spec_trips_hub_hub_constraint capacity products (hub1, hub2)
                = LE_InequalityConstraint lhs 0
           ∧ ∀ ρ, le_eval ρ lhs
                  = sumZ (map (λ product,
                                 ρ (products_move_hub_hub
                                      (hub1, hub2, product))) products)
                    - capacity * ρ (flights_hub_hub (hub1, hub2)))
    ∧ (∀ customer hub,
         customer ∈ customers → hub ∈ hubs →
         n_flights_variables self ≫= dict_get (customer, hub)
         = Some (flights_customer_hub (customer, hub)))
    ∧ (∀ hub1 hub2,
         hub1 ∈ hubs → hub2 ∈ hubs → hub1 ≠ hub2 →
         n_flights_hub_to_hub_variables self ≫= dict_get (hub1, hub2)
         = Some (flights_hub_hub (hub1, hub2))).
Proof.
  eexists _, _, _, _, _, _. split; [apply init_closed|]. split; [done|].
  split; [done|].
  split; [by apply demand_constraints_closed|].
  split; [by apply supply_constraints_closed|].
  split; [by rewrite (trips_constraints_closed _ customers hubs products)|].
  split;
    [by rewrite (trips_hub_to_hub_constraints_closed _ customers hubs products)|].
  split; [done|]. split; [done|]. split; [done|].
  assert (∀ hub1 hub2,
            occurrences (hub1, hub2) (spec_hub_pairs hubs)
            = if decide (hub1 ≠ hub2)
              then (occurrences hub1 hubs * occurrences hub2 hubs)%nat
              else 0%nat) as Hocc.
  { intros hub1 hub2. unfold spec_hub_pairs.
    rewrite (occurrences_filter (λ k : Hub * Hub, k.1 ≠ k.2)). simpl.
    by rewrite occurrences_list_prod. }
  split_and!.
  - intros customer hub. apply elem_of_list_prod_iff.
  - apply elem_of_spec_hub_pairs.
  - intros customer hub. apply occurrences_list_prod.
  - done.
  - intros Hc Hh. split; [by apply NoDup_list_prod|].
    intros customer hub Hcin Hhin.
    by rewrite occurrences_list_prod, !occurrences_NoDup.
  - intros Hh. split; [by apply NoDup_filter, NoDup_list_prod|].
    intros hub1 hub2 Hh1 Hh2 Hne.
    rewrite Hocc, decide_True by done. by rewrite !occurrences_NoDup.
  - intros customer hub. eexists. split; [done|]. intros ρ.
    rewrite le_eval_sub, le_eval_units. unfold le_eval. simpl. lia.
  - intros hub1 hub2. eexists. split; [done|]. intros ρ.
    rewrite le_eval_sub, le_eval_units. unfold le_eval. simpl. lia.
  - intros customer hub Hc Hh. simpl. by apply customer_hub_key.
  - intros hub1 hub2 Hh1 Hh2 Hne. simpl. by apply hub_pair_key.
Qed.


Lemma Forall_class_comprehension {K : Type} `{EqDecision K}
    (val : K → IntegerVariable) (ks : list K) (c : VariableClass) :
  (∀ k, class_of (val k) = c) →
  Forall (λ v, class_of v = c) (dict_values (dict_comprehension val ks)).
Proof.
  intros Hval. rewrite dict_values_comprehension.
  apply Forall_fmap, Forall_forall. intros k _. apply Hval.
Qed.

(** C9.  The model's variable list is the values of the four catalogs in
    the order flights customer–hub, moves customer–hub, flights hub–hub,
    moves hub–hub; its constraint list is the demand family, then the
    supply family, then the customer trip family, then the hub trip
    family. *)
Theorem model_lists_in_family_order customers hubs products capacity env :
  ∃ self m d1 d2 d3 d4 f1 f2 f3 f4,
    __init__ customers hubs products capacity env = Some self
    ∧ model self = Some m
    ∧ n_flights_variables self = Some d1
    ∧ n_product_move_variables self = Some d2
    ∧ n_flights_hub_to_hub_variables self = Some d3
    ∧ n_products_move_hub_to_hub_variables self = Some d4
    ∧ Forall (λ v, class_of v = FlightsCustomerHub) (dict_values d1)
    ∧ Forall (λ v, class_of v = ProductsMoveCustomerHub) (dict_values d2)
    ∧ Forall (λ v, class_of v = FlightsHubHub) (dict_values d3)
    ∧ Forall (λ v, class_of v = ProductsMoveHubHub) (dict_values d4)
    ∧ decision_variables m
      = dict_values d1 ++ dict_values d2 ++ dict_values d3 ++ dict_values d4
    ∧ _get_demand_constraints self customers products hubs = Some f1
    ∧ _get_supply_constraints self customers products hubs = Some f2
    ∧ _get_trips_constraints self customers products hubs = Some f3
    ∧ _get_trips_hub_to_hub_constraints self products hubs = Some f4
    ∧ get_constraints self customers hubs products = Some (constraints m)
    ∧ constraints m = f1 ++ f2 ++ f3 ++ f4.
Proof.
  eexists _, _, _, _, _, _, _, _, _, _.
  split; [apply init_closed|]. simpl. split_and!; try done.
  - apply Forall_class_comprehension. by intros [].
  - apply Forall_class_comprehension. by intros [[] ?].
  - apply Forall_class_comprehension. by intros [].
  - apply Forall_class_comprehension. by intros [[] ?].
  - unfold spec_variables, _get_n_flights_variables,
      _get_n_products_move_variables, _get_n_flights_hub_to_hub,
      _get_n_products_move_hub_to_hub.
    by rewrite !dict_values_comprehension.
  - by apply demand_constraints_closed.
  - by apply supply_constraints_closed.
  - by rewrite (trips_constraints_closed _ customers hubs products).
  - by rewrite (trips_hub_to_hub_constraints_closed _ customers hubs products).
  - by rewrite (get_constraints_closed _ customers hubs products).
Qed.

(** *** The variables of the model *)

Lemma elem_of_spec_variables customers hubs products v :
  v ∈ spec_variables customers hubs products
  ↔ (∃ customer hub,
       v = flights_customer_hub (customer, hub)
       ∧ customer ∈ customers ∧ hub ∈ hubs)
    ∨ (∃ customer hub product,
         v = products_move_customer_hub (customer, hub, product)
         ∧ customer ∈ customers ∧ hub ∈ hubs ∧ product ∈ products)
    ∨ (∃ hub1 hub2,
         v = flights_hub_hub (hub1, hub2)
         ∧ hub1 ∈ hubs ∧ hub2 ∈ hubs ∧ hub1 ≠ hub2)
    ∨ (∃ hub1 hub2 product,
         v = products_move_hub_hub (hub1, hub2, product)
         ∧ hub1 ∈ hubs ∧ hub2 ∈ hubs ∧ product ∈ products ∧ hub1 ≠ hub2).
Proof.
  unfold spec_variables. rewrite !elem_of_app, !list_elem_of_fmap.
  split.
  - intros [Hv|[Hv|[Hv|Hv]]]; destruct Hv as (k & -> & Hk);
      rewrite elem_of_first_occurrences_nil in Hk.
    + destruct k as [customer hub].
      apply elem_of_list_prod_iff in Hk. left. by exists customer, hub.
    + destruct k as [[customer hub] product].
      apply elem_of_product3 in Hk. right; left.
      by exists customer, hub, product.
    + destruct k as [hub1 hub2].
      apply elem_of_spec_hub_pairs in Hk. right; right; left.
      by exists hub1, hub2.
    + destruct k as [[hub1 hub2] product].
      apply list_elem_of_filter in Hk as [Hne Hk].
      apply elem_of_product3 in Hk as (? & ? & ?). right; right; right.
      by exists hub1, hub2, product.
  - intros [Hv|[Hv|[Hv|Hv]]].
    + destruct Hv as (customer & hub & -> & Hc & Hh). left.
      exists (customer, hub). split; [done|].
      by apply elem_of_first_occurrences_nil, elem_of_list_prod_iff.
    + destruct Hv as (customer & hub & product & -> & Hc & Hh & Hp).
      right; left. exists (customer, hub, product). split; [done|].
      by apply elem_of_first_occurrences_nil, elem_of_product3.
    + destruct Hv as (hub1 & hub2 & -> & Hh1 & Hh2 & Hne).
      right; right; left. exists (hub1, hub2). split; [done|].
      by apply elem_of_first_occurrences_nil, elem_of_spec_hub_pairs.
    + destruct Hv as (hub1 & hub2 & product & -> & Hh1 & Hh2 & Hp & Hne).
      right; right; right. exists (hub1, hub2, product). split; [done|].
      apply elem_of_first_occurrences_nil, list_elem_of_filter.
      split; [done|]. by apply elem_of_product3.
Qed.

Lemma customer_move_upper_bound customer hub product :
  upper_bound (products_move_customer_hub (customer, hub, product))
  = Some (match customer_demand customer !! product with
          | Some quantity => quantity
          | None => 0
          end).
Proof.
  unfold products_move_customer_hub. simpl. f_equal.
  case_bool_decide as Hdom.
  - apply elem_of_dom in Hdom as [q ->]. done.
  - apply not_elem_of_dom in Hdom as ->. done.
Qed.

Lemma hub_hub_data_flights hub1 hub2 :
  data (flights_hub_hub (hub1, hub2)) !! "hub1" = Some (OHub hub1)
  ∧ data (flights_hub_hub (hub1, hub2)) !! "hub2" = Some (OHub hub2).
Proof. unfold flights_hub_hub. simpl. by simplify_map_eq. Qed.

Lemma hub_hub_data_moves hub1 hub2 product :
  data (products_move_hub_hub (hub1, hub2, product)) !! "hub1"
  = Some (OHub hub1)
  ∧ data (products_move_hub_hub (hub1, hub2, product)) !! "hub2"
    = Some (OHub hub2)
  ∧ data (products_move_hub_hub (hub1, hub2, product)) !! "product"
    = Some (OProduct product).
Proof. unfold products_move_hub_hub. simpl. by simplify_map_eq. Qed.

Lemma customer_hub_data_moves customer hub product :
  data (products_move_customer_hub (customer, hub, product)) !! "hub"
  = Some (OHub hub)
  ∧ data (products_move_customer_hub (customer, hub, product)) !! "customer"
    = Some (OCustomer customer)
  ∧ data (products_move_customer_hub (customer, hub, product)) !! "product"
    = Some (OProduct product).
Proof. unfold products_move_customer_hub. simpl. by simplify_map_eq. Qed.

(** C5.  Every variable of the model has lower bound 0; the customer-bound
    move variable of (customer, hub, product) is capped at
    [customer.demand[product]] when the product is a key of the demand
    dictionary and at 0 otherwise; no hub–hub variable pairs a hub with
    itself. *)
Theorem variable_bounds_and_hub_pairs customers hubs products capacity env :
  ∃ self m,
    __init__ customers hubs products capacity env = Some self
    ∧ model self = Some m
    ∧ (∀ v, v ∈ decision_variables m → lower_bound v = 0)
    ∧ (∀ customer hub product,
         customer ∈ customers → hub ∈ hubs → product ∈ products →
         ∃ v, n_product_move_variables self
                ≫= dict_get (customer, hub, product) = Some v
              ∧ v ∈ decision_variables m
              ∧ class_of v = ProductsMoveCustomerHub
              ∧ upper_bound v
                = Some (match customer_demand customer !! product with
                        | Some quantity => quantity
                        | None => 0
                        end))
    ∧ (∀ v, v ∈ decision_variables m →
            class_of v = ProductsMoveCustomerHub →
            ∃ customer hub product,
              customer ∈ customers ∧ hub ∈ hubs ∧ product ∈ products
              ∧ data v !! "customer" = Some (OCustomer customer)
              ∧ data v !! "hub" = Some (OHub hub)
              ∧ data v !! "product" = Some (OProduct product)
              ∧ upper_bound v
                = Some (match customer_demand customer !! product with
                        | Some quantity => quantity
                        | None => 0
                        end))
    ∧ (∀ v, v ∈ decision_variables m →
            class_of v = FlightsHubHub ∨ class_of v = ProductsMoveHubHub →
            ∃ hub1 hub2,
              hub1 ≠ hub2
              ∧ data v !! "hub1" = Some (OHub hub1)
              ∧ data v !! "hub2" = Some (OHub hub2))
    ∧ (∀ hub product,
         n_flights_hub_to_hub_variables self ≫= dict_get (hub, hub) = None
         ∧ n_products_move_hub_to_hub_variables self
             ≫= dict_get (hub, hub, product) = None).
Proof.
  eexists _, _. split; [apply init_closed|]. split; [done|]. simpl.
  split_and!.
  - intros v Hv. apply elem_of_spec_variables in Hv.
    by destruct Hv as [(? & ? & -> & _)|[(? & ? & ? & -> & _)
      |[(? & ? & -> & _)|(? & ? & ? & -> & _)]]].
  - intros customer hub product Hc Hh Hp.
    exists (products_move_customer_hub (customer, hub, product)).
    split_and!; [| |done|apply customer_move_upper_bound].
    + by apply dict_get_comprehension, elem_of_product3.
    + apply elem_of_spec_variables. right; left.
      by exists customer, hub, product.
  - intros v Hv Hclass. apply elem_of_spec_variables in Hv.
    destruct Hv as [Hv|[Hv|[Hv|Hv]]].
    + destruct Hv as (? & ? & -> & _). done.
    + destruct Hv as (customer & hub & product & -> & Hc & Hh & Hp).
      exists customer, hub, product.
      destruct (customer_hub_data_moves customer hub product)
        as (? & ? & ?).
      split_and!; try done. apply customer_move_upper_bound.
    + destruct Hv as (? & ? & -> & _). done.
    + destruct Hv as (? & ? & ? & -> & _). done.
  - intros v Hv Hclass. apply elem_of_spec_variables in Hv.
    destruct Hv as [Hv|[Hv|[Hv|Hv]]].
    + destruct Hv as (? & ? & -> & _). by destruct Hclass.
    + destruct Hv as (? & ? & ? & -> & _). by destruct Hclass.
    + destruct Hv as (hub1 & hub2 & -> & _ & _ & Hne).
      exists hub1, hub2. split; [done|]. apply hub_hub_data_flights.
    + destruct Hv as (hub1 & hub2 & product & -> & _ & _ & _ & Hne).
      exists hub1, hub2. split; [done|].
      destruct (hub_hub_data_moves hub1 hub2 product) as (? & ? & ?). done.
  - intros hub product. split.
    + apply dict_get_comprehension_None.
      rewrite list_elem_of_filter. simpl. tauto.
    + apply dict_get_comprehension_None.
      rewrite list_elem_of_filter. simpl. tauto.
Qed.

(** C10.  Among the variables of the model, exactly the customer-bound
    move variables carry an upper bound; every flight variable and every
    hub-to-hub move variable has lower bound 0 and no upper bound. *)
Theorem only_customer_moves_are_capped customers hubs products capacity env :
  ∃ self m,
    __init__ customers hubs products capacity env = Some self
    ∧ model self = Some m
    ∧ (∀ v, v ∈ decision_variables m →
            lower_bound v = 0
            ∧ (class_of v = ProductsMoveCustomerHub →
               is_Some (upper_bound v))
            ∧ (class_of v ≠ ProductsMoveCustomerHub →
               upper_bound v = None))
    ∧ (∀ customer hub,
         customer ∈ customers → hub ∈ hubs →
         ∃ v, n_flights_variables self ≫= dict_get (customer, hub) = Some v
              ∧ v ∈ decision_variables m
              ∧ class_of v = FlightsCustomerHub
              ∧ lower_bound v = 0 ∧ upper_bound v = None)
    ∧ (∀ hub1 hub2,
         hub1 ∈ hubs → hub2 ∈ hubs → hub1 ≠ hub2 →
         ∃ v, n_flights_hub_to_hub_variables self ≫= dict_get (hub1, hub2)
              = Some v
              ∧ v ∈ decision_variables m
              ∧ class_of v = FlightsHubHub
              ∧ lower_bound v = 0 ∧ upper_bound v = None)
    ∧ (∀ hub1 hub2 product,
         hub1 ∈ hubs → hub2 ∈ hubs → product ∈ products → hub1 ≠ hub2 →
         ∃ v, n_products_move_hub_to_hub_variables self
                ≫= dict_get (hub1, hub2, product) = Some v
              ∧ v ∈ decision_variables m
              ∧ class_of v = ProductsMoveHubHub
              ∧ lower_bound v = 0 ∧ upper_bound v = None).
Proof.
  eexists _, _. split; [apply init_closed|]. split; [done|]. simpl.
  split_and!.
  - intros v Hv. apply elem_of_spec_variables in Hv.
    destruct Hv as [Hv|[Hv|[Hv|Hv]]].
    + destruct Hv as (? & ? & -> & _). by split_and!.
    + destruct Hv as (customer & hub & product & -> & _).
      split_and!; [done| |done]. intros _.
      rewrite customer_move_upper_bound. eauto.
    + destruct Hv as (? & ? & -> & _). by split_and!.
    + destruct Hv as (? & ? & ? & -> & _). by split_and!.
  - intros customer hub Hc Hh. exists (flights_customer_hub (customer, hub)).
    split_and!; try done; [by apply customer_hub_key|].
    apply elem_of_spec_variables. left. by exists customer, hub.
  - intros hub1 hub2 Hh1 Hh2 Hne. exists (flights_hub_hub (hub1, hub2)).
    split_and!; try done; [by apply hub_pair_key|].
    apply elem_of_spec_variables. right; right; left. by exists hub1, hub2.
  - intros hub1 hub2 product Hh1 Hh2 Hp Hne.
    exists (products_move_hub_hub (hub1, hub2, product)).
    split_and!; try done; [by apply hub_hub_key|].
    apply elem_of_spec_variables. right; right; right.
    by exists hub1, hub2, product.
Qed.
End BuiltModel.

(** ** The solution interpreter *)
Section Interpreter.
Context {Customer Hub Product Location : Type}.
Context `{ProblemObjects Customer Hub Product Location}.

Local Abbreviation IntegerVariable := (@IntegerVariable Customer Hub Product).
Local Abbreviation Trip := (@Trip Customer Hub Product).
Local Abbreviation Trips := (@Trips Customer Hub Product).
Local Abbreviation SolveProductTrips :=
  (@SolveProductTrips Customer Hub Product Location).

Implicit Types (customers : list Customer) (hubs : list Hub)
  (products : list Product) (self : SolveProductTrips)
  (env : Environment Location) (solution : list (IntegerVariable * Z)).

Lemma moved_spec c (variable : IntegerVariable) (value : Z) :
  bool_decide (value ≠ 0) && isinstance variable c = true
  ↔ moved c (variable, value).
Proof.
  unfold moved, isinstance. simpl.
  rewrite andb_true_iff, !bool_decide_eq_true. done.
Qed.

(** One [if] statement of the loop body: it appends the trip read off the
    entry when the entry is a non-zero variable of class [c], and nothing
    otherwise. *)
Lemma get_trips_if_inv (c : VariableClass) (o d : string)
    (variable : IntegerVariable) (value : Z) (trips trips' : list Trip) :
  (if bool_decide (value ≠ 0) && isinstance variable c
   then
     o' ← data variable !! o;
     d' ← data variable !! d;
     p ← data variable !! "product";
     Some (trips ++ [{| origin := o'; destination := d'; product_type := p;
                        product_quantity := value |}])
   else Some trips) = Some trips' →
  ∃ l, trips' = trips ++ l
       ∧ Forall2 (reads o d) (filter (moved c) [(variable, value)]) l.
Proof.
  rewrite filter_cons, filter_nil.
  pose proof (moved_spec c variable value) as Hm.
  destruct (bool_decide (value ≠ 0) && isinstance variable c); intros Hif.
  - rewrite decide_True by (by apply Hm).
    destruct (data variable !! o) as [o'|] eqn:Ho; [|done].
    destruct (data variable !! d) as [d'|] eqn:Hd; [|done].
    destruct (data variable !! "product") as [p|] eqn:Hp; [|done].
    simpl in Hif. injection Hif as <-. eexists. split; [done|].
    apply Forall2_cons_2; [|apply Forall2_nil_2]. by repeat split.
  - rewrite decide_False by (intros Hmoved; by apply Hm in Hmoved).
    injection Hif as <-. exists []. rewrite app_nil_r.
    split; [done|]. apply Forall2_nil_2.
Qed.

Lemma get_trips_if_total (c : VariableClass) (o d : string)
    (variable : IntegerVariable) (value : Z) (trips : list Trip) :
  (class_of variable = c →
   is_Some (data variable !! o) ∧ is_Some (data variable !! d)
   ∧ is_Some (data variable !! "product")) →
  is_Some
    (if bool_decide (value ≠ 0) && isinstance variable c
     then
       o' ← data variable !! o;
       d' ← data variable !! d;
       p ← data variable !! "product";
       Some (trips ++ [{| origin := o'; destination := d'; product_type := p;
                          product_quantity := value |}])
     else Some trips).
Proof.
  intros Htag.
  pose proof (moved_spec c variable value) as Hm.
  destruct (bool_decide (value ≠ 0) && isinstance variable c); [|done].
  destruct Hm as [Hm _]. destruct (Hm eq_refl) as [_ Hclass].
  destruct (Htag Hclass) as ([? ->] & [? ->] & [? ->]). done.
Qed.

Lemma get_trips_step_inv (acc acc' : list Trip * list Trip)
    (e : IntegerVariable * Z) :
  _get_trips_step acc e = Some acc' →
  ∃ l1 l2,
    acc' = (acc.1 ++ l1, acc.2 ++ l2)
    ∧ Forall2 (reads "hub" "customer")
        (filter (moved ProductsMoveCustomerHub) [e]) l1
    ∧ Forall2 (reads "hub1" "hub2")
        (filter (moved ProductsMoveHubHub) [e]) l2.
Proof.
  destruct acc as [thc thh], e as [variable value]. unfold _get_trips_step.
  intros Hstep. apply bind_Some in Hstep as (thc' & Hc & Hstep).
  apply bind_Some in Hstep as (thh' & Hh & Hstep).
  injection Hstep as <-.
  apply get_trips_if_inv in Hc as (l1 & -> & Hl1).
  apply get_trips_if_inv in Hh as (l2 & -> & Hl2).
  by exists l1, l2.
Qed.

Lemma get_trips_step_total (acc : list Trip * list Trip)
    (e : IntegerVariable * Z) :
  tagged e.1 → is_Some (_get_trips_step acc e).
Proof.
  destruct acc as [thc thh], e as [variable value]. intros [Hc Hh].
  unfold _get_trips_step.
  destruct (get_trips_if_total ProductsMoveCustomerHub "hub" "customer"
              variable value thc Hc) as [thc' ->].
  destruct (get_trips_if_total ProductsMoveHubHub "hub1" "hub2"
              variable value thh Hh) as [thh' ->].
  done.
Qed.

Lemma filter_app_singleton {A : Type} (P : A → Prop)
    `{∀ x, Decision (P x)} (x : A) (xs : list A) :
  filter P (x :: xs) = filter P [x] ++ filter P xs.
Proof. rewrite !filter_cons, filter_nil. by destruct (decide (P x)). Qed.

Lemma get_trips_loop_inv solution (acc acc' : list Trip * list Trip) :
  for_each solution _get_trips_step acc = Some acc' →
  ∃ l1 l2,
    acc' = (acc.1 ++ l1, acc.2 ++ l2)
    ∧ Forall2 (reads "hub" "customer")
        (filter (moved ProductsMoveCustomerHub) solution) l1
    ∧ Forall2 (reads "hub1" "hub2")
        (filter (moved ProductsMoveHubHub) solution) l2.
Proof.
  revert acc. induction solution as [|e solution IH]; intros acc Hloop.
  - injection Hloop as <-. exists [], []. rewrite !app_nil_r.
    destruct acc. by repeat split; try apply Forall2_nil_2.
  - simpl in Hloop. apply bind_Some in Hloop as (acc1 & Hstep & Hloop).
    apply get_trips_step_inv in Hstep as (l1 & l2 & -> & Hl1 & Hl2).
    apply IH in Hloop as (k1 & k2 & -> & Hk1 & Hk2). simpl.
    exists (l1 ++ k1), (l2 ++ k2). rewrite <-!app_assoc. split; [done|].
    rewrite (filter_app_singleton (moved ProductsMoveCustomerHub)).
    rewrite (filter_app_singleton (moved ProductsMoveHubHub)).
    split; by apply Forall2_app.
Qed.

Lemma get_trips_loop_total solution (acc : list Trip * list Trip) :
  (∀ e, e ∈ solution → tagged e.1) →
  is_Some (for_each solution _get_trips_step acc).
Proof.
  revert acc. induction solution as [|e solution IH]; intros acc Htag; [done|].
  simpl. destruct (get_trips_step_total acc e) as [acc1 ->].
  - apply Htag. by left.
  - simpl. apply IH. intros e' He'. apply Htag. by right.
Qed.

Lemma model_variables_tagged customers hubs products v :
  v ∈ spec_variables customers hubs products → tagged v.
Proof.
  intros Hv. apply elem_of_spec_variables in Hv.
  destruct Hv as [Hv|[Hv|[Hv|Hv]]].
  - destruct Hv as (? & ? & -> & _). by split.
  - destruct Hv as (customer & hub & product & -> & _).
    destruct (customer_hub_data_moves customer hub product) as (? & ? & ?).
    split; [|done]. intros _. eauto.
  - destruct Hv as (? & ? & -> & _). by split.
  - destruct Hv as (hub1 & hub2 & product & -> & _).
    destruct (hub_hub_data_moves hub1 hub2 product) as (? & ? & ?).
    split; [done|]. intros _. eauto.
Qed.

(** *** Deliveries per customer and product *)

Lemma delivered_reads (l : list (IntegerVariable * Z)) (ts : list Trip)
    customer product :
  Forall2 (reads "hub" "customer") l ts →
  delivered ts customer product
  = sumZ (map snd (filter (for_pair customer product) l)).
Proof.
  unfold delivered. induction 1 as [|e t l ts Hread _ IH]; [done|].
  rewrite !filter_cons. destruct Hread as (_ & Hd & Hp & Hq).
  destruct (decide (destination t = OCustomer customer
                    ∧ product_type t = OProduct product)) as [[Ht1 Ht2]|Hn].
  - rewrite decide_True.
    + simpl. by rewrite IH, Hq.
    + split; congruence.
  - rewrite decide_False; [done|].
    intros [He1 He2]. apply Hn. split; congruence.
Qed.

Lemma sumZ_moved_filter (c : VariableClass) (P : IntegerVariable * Z → Prop)
    `{∀ e, Decision (P e)} (l : list (IntegerVariable * Z)) :
  sumZ (map snd (filter P (filter (moved c) l)))
  = sumZ (map snd (filter (λ e, class_of e.1 = c ∧ P e) l)).
Proof.
  induction l as [|[v x] l IH]; [done|].
  rewrite (filter_cons (moved c)), (filter_cons (λ e, class_of e.1 = c ∧ P e)).
  unfold moved at 1. simpl.
  destruct (decide (x ≠ 0 ∧ class_of v = c)) as [[Hx Hc]|Hn].
  - rewrite filter_cons. destruct (decide (P (v, x))).
    + rewrite decide_True by done. simpl. by rewrite IH.
    + rewrite decide_False by tauto. done.
  - destruct (decide (class_of v = c ∧ P (v, x))) as [[Hc HP]|Hn']; [|done].
    simpl. rewrite IH.
    destruct (decide (x = 0)) as [->|Hx]; [done|]. tauto.
Qed.

Lemma customer_move_inj customer product hub hub' :
  products_move_customer_hub (customer, hub, product)
  = products_move_customer_hub (customer, hub', product) →
  hub = hub'.
Proof.
  intros Heq.
  destruct (customer_hub_data_moves customer hub product) as (Hh & _).
  destruct (customer_hub_data_moves customer hub' product) as (Hh' & _).
  rewrite Heq in Hh. congruence.
Qed.

(** The entries of a solution that belong to one (customer, product) pair
    are, up to order, the customer move variables of the pair, one per
    hub. *)
Lemma pair_entries_perm customers hubs products solution customer product :
  NoDup hubs →
  NoDup solution.*1 →
  (∀ v, v ∈ solution.*1 ↔ v ∈ spec_variables customers hubs products) →
  customer ∈ customers → product ∈ products →
  filter (λ e, class_of e.1 = ProductsMoveCustomerHub
               ∧ for_pair customer product e) solution
  ≡ₚ map (λ hub,
            (products_move_customer_hub (customer, hub, product),
             value_in solution
               (products_move_customer_hub (customer, hub, product))))
       hubs.
Proof.
  intros Hhubs Hkeys Hvars Hc Hp. apply NoDup_Permutation.
  - apply NoDup_filter. by apply NoDup_fmap_1 in Hkeys.
  - apply NoDup_fmap_2_strong; [|done].
    intros hub hub' _ _ Heq. apply (f_equal fst) in Heq.
    by apply customer_move_inj in Heq.
  - intros [v x]. rewrite list_elem_of_filter, list_elem_of_fmap. simpl.
    split.
    + intros [[Hclass [Hcust Hprod]] Hin]. simpl in Hcust, Hprod.
      assert (v ∈ solution.*1) as Hv
        by (apply list_elem_of_fmap; by exists (v, x)).
      apply Hvars, elem_of_spec_variables in Hv.
      destruct Hv as [Hv|[Hv|[Hv|Hv]]].
      * by destruct Hv as (? & ? & -> & _).
      * destruct Hv as (customer' & hub & product' & -> & _ & Hh & _).
        destruct (customer_hub_data_moves customer' hub product')
          as (_ & Hcust' & Hprod').
        assert (customer' = customer) as -> by congruence.
        assert (product' = product) as -> by congruence.
        exists hub. split; [|done]. f_equal.
        unfold value_in. by rewrite (dict_get_NoDup solution _ x).
      * by destruct Hv as (? & ? & -> & _).
      * by destruct Hv as (? & ? & ? & -> & _).
    + intros (hub & Heq & Hh).
      apply pair_equal_spec in Heq as [-> ->].
      destruct (customer_hub_data_moves customer hub product)
        as (_ & Hcust & Hprod).
      split; [by repeat split|].
      assert (products_move_customer_hub (customer, hub, product)
              ∈ solution.*1) as Hv.
      { apply Hvars, elem_of_spec_variables. right; left.
        by exists customer, hub, product. }
      apply dict_get_is_Some in Hv as [x Hx].
      unfold value_in. rewrite Hx. simpl. by apply dict_get_elem_of.
Qed.

(** What the trips deliver to a customer of a product is the sum, over the
    hubs, of the values of the pair's customer move variables. *)
Lemma delivered_sum customers hubs products solution trips customer product :
  NoDup hubs →
  NoDup solution.*1 →
  (∀ v, v ∈ solution.*1 ↔ v ∈ spec_variables customers hubs products) →
  customer ∈ customers → product ∈ products →
  _get_trips solution = Some trips →
  delivered (hub_to_customer trips) customer product
  = sumZ (map (λ hub, value_in solution
                        (products_move_customer_hub (customer, hub, product)))
            hubs).
Proof.
  intros Hhubs Hkeys Hvars Hc Hp Hget. unfold _get_trips in Hget.
  apply bind_Some in Hget as (r & Hloop & [= <-]).
  apply get_trips_loop_inv in Hloop as (l1 & l2 & -> & Hl1 & _). simpl.
  rewrite (delivered_reads _ _ _ _ Hl1), sumZ_moved_filter.
  etrans.
  { apply sumZ_perm, (fmap_Permutation snd).
    by apply (pair_entries_perm customers hubs products). }
  f_equal. apply map_map.
Qed.

Lemma get_trips_total_on_model customers hubs products solution :
  (∀ v, v ∈ solution.*1 → v ∈ spec_variables customers hubs products) →
  is_Some (_get_trips solution).
Proof.
  intros Hvars. unfold _get_trips.
  destruct (get_trips_loop_total solution ([], [])) as [r ->]; [|done].
  intros [v x] Hin. apply (model_variables_tagged customers hubs products).
  apply Hvars, list_elem_of_fmap. by exists (v, x).
Qed.

Lemma no_trips_without_class (c : VariableClass) solution :
  (∀ v, v ∈ solution.*1 → class_of v ≠ c) →
  filter (moved c) solution = [].
Proof.
  intros Hclass. apply elem_of_nil_inv. intros [v x].
  rewrite list_elem_of_filter. intros [[_ Hc] Hin]. simpl in Hc.
  apply (Hclass v); [|done]. apply list_elem_of_fmap. by exists (v, x).
Qed.

(** C8, as amended.  Take an instance whose hubs are pairwise distinct and a
    solution keyed by exactly the variables of its model.  If the
    assignment satisfies the demand family then, for every customer of the
    instance and every product of the instance that is a key of the
    customer's demand dictionary, the quantities of the hub-to-customer
    trips of that customer and product add up to the demanded quantity. *)
Theorem delivered_equals_demand customers hubs products capacity env self m
    solution customer product quantity :
  __init__ customers hubs products capacity env = Some self →
  model self = Some m →
  NoDup hubs →
  NoDup solution.*1 →
  (∀ v, v ∈ solution.*1 ↔ v ∈ decision_variables m) →
  (∃ family,
     _get_demand_constraints self customers products hubs = Some family
     ∧ Forall (holds (value_in solution)) family) →
  customer ∈ customers → product ∈ products →
  customer_demand customer !! product = Some quantity →
  ∃ trips,
    _get_trips solution = Some trips
    ∧ delivered (hub_to_customer trips) customer product = quantity.
Proof.
  intros Hinit Hmodel Hhubs Hkeys Hvars (family & Hfam & Hholds) Hc Hp Hq.
  destruct (init_catalogs _ _ _ _ _ _ Hinit) as (Hcat & _ & _).
  rewrite init_closed in Hinit. injection Hinit as <-.
  injection Hmodel as <-. simpl in Hvars.
  rewrite (demand_constraints_closed _ _ _ _ Hcat) in Hfam.
  injection Hfam as <-.
  destruct (get_trips_total_on_model customers hubs products solution)
    as [trips Hget]; [intros v; apply Hvars|].
  exists trips. split; [done|].
  rewrite (delivered_sum customers hubs products solution trips) by done.
  rewrite Forall_forall in Hholds.
  specialize (Hholds (spec_demand_constraint hubs (customer, product))).
  rewrite holds_demand in Hholds. simpl in Hholds.
  rewrite Hholds; [by rewrite Hq|].
  apply list_elem_of_fmap. exists (customer, product). split; [done|].
  apply list_elem_of_filter. simpl. split.
  - apply elem_of_dom. eauto.
  - by apply elem_of_list_prod_iff.
Qed.

(** X17.  A product that is not a key of the customer's demand dictionary
    has no demand constraint; it is the bounds of the variables that keep it
    from being delivered: a solution that respects them delivers none of
    it to that customer. *)
Lemma delivered_zero_without_demand customers hubs products capacity env
    self m solution customer product :
  __init__ customers hubs products capacity env = Some self →
  model self = Some m →
  NoDup hubs →
  NoDup solution.*1 →
  (∀ v, v ∈ solution.*1 ↔ v ∈ decision_variables m) →
  (∀ v, v ∈ decision_variables m → within_bounds (value_in solution) v) →
  customer ∈ customers → product ∈ products →
  customer_demand customer !! product = None →
  ∃ trips,
    _get_trips solution = Some trips
    ∧ delivered (hub_to_customer trips) customer product = 0.
Proof.
  intros Hinit Hmodel Hhubs Hkeys Hvars Hbounds Hc Hp Hq.
  rewrite init_closed in Hinit. injection Hinit as <-.
  injection Hmodel as <-. simpl in Hvars, Hbounds.
  destruct (get_trips_total_on_model customers hubs products solution)
    as [trips Hget]; [intros v; apply Hvars|].
  exists trips. split; [done|].
  rewrite (delivered_sum customers hubs products solution trips) by done.
  assert (∀ hub, hub ∈ hubs →
            value_in solution
              (products_move_customer_hub (customer, hub, product)) = 0)
    as Hzero.
  { intros hub Hh.
    destruct (Hbounds (products_move_customer_hub (customer, hub, product)))
      as [Hlo Hup].
    - apply elem_of_spec_variables. right; left.
      by exists customer, hub, product.
    - rewrite customer_move_upper_bound, Hq in Hup.
      change (lower_bound
                (products_move_customer_hub (customer, hub, product)))
        with 0 in Hlo. lia. }
  by apply sumZ_zero.
Qed.

(** C6.  Whenever the interpreter returns, its hub-to-customer list holds,
    in the order of the solution, one trip per entry that is a customer
    move variable with a non-zero value, and its hub-to-hub list one trip
    per entry that is a hub move variable with a non-zero value; each trip
    is read off the variable's [data] and the value.  Flight variables and
    zero values contribute nothing.  The interpreter returns whenever the
    move variables carry their index tuple, as the variables of a built
    model do. *)
Theorem trips_read_off_move_variables solution :
  (∀ trips,
     _get_trips solution = Some trips →
     Forall2 (reads "hub" "customer")
       (filter (moved ProductsMoveCustomerHub) solution)
       (hub_to_customer trips)
     ∧ Forall2 (reads "hub1" "hub2")
         (filter (moved ProductsMoveHubHub) solution)
         (hub_to_hub trips))
  ∧ ((∀ variable value, (variable, value) ∈ solution → tagged variable) →
     is_Some (_get_trips solution))
  ∧ (∀ customers hubs products capacity env self m,
       __init__ customers hubs products capacity env = Some self →
       model self = Some m →
       (∀ variable value,
          (variable, value) ∈ solution → variable ∈ decision_variables m) →
       is_Some (_get_trips solution)).
Proof.
  assert ((∀ variable value, (variable, value) ∈ solution → tagged variable)
          → is_Some (_get_trips solution)) as Htotal.
  { intros Htag. unfold _get_trips.
    destruct (get_trips_loop_total solution ([], [])) as [r ->]; [|done].
    intros [variable value]. apply Htag. }
  split_and!; [|done|].
  - intros trips Hget. unfold _get_trips in Hget.
    apply bind_Some in Hget as (r & Hloop & [= <-]).
    apply get_trips_loop_inv in Hloop as (l1 & l2 & -> & Hl1 & Hl2). done.
  - intros customers hubs products capacity env self m Hinit Hmodel Hkeys.
    apply Htotal. intros variable value Hin.
    apply (model_variables_tagged customers hubs products).
    rewrite init_closed in Hinit. injection Hinit as <-.
    injection Hmodel as <-. by apply (Hkeys variable value).
Qed.

Lemma get_trips_inv solution (trips : Trips) :
  _get_trips solution = Some trips →
  Forall2 (reads "hub" "customer")
    (filter (moved ProductsMoveCustomerHub) solution) (hub_to_customer trips)
  ∧ Forall2 (reads "hub1" "hub2")
      (filter (moved ProductsMoveHubHub) solution) (hub_to_hub trips).
Proof.
  intros Hget. unfold _get_trips in Hget.
  apply bind_Some in Hget as (r & Hloop & [= <-]).
  apply get_trips_loop_inv in Hloop as (l1 & l2 & -> & Hl1 & Hl2). done.
Qed.

(** X15.  [solve] hands the model to the injected solver and, whenever the
    solver returns an assignment of the model's variables, returns the trips
    the interpreter reads off that assignment. *)
Lemma solve_returns customers hubs products capacity env self
    (Mip_Solver : Model → Z → option (list (IntegerVariable * Z)))
    max_seconds m solution :
  __init__ customers hubs products capacity env = Some self →
  model self = Some m →
  Mip_Solver m max_seconds = Some solution →
  (∀ v, v ∈ solution.*1 → v ∈ decision_variables m) →
  ∃ trips, solve self Mip_Solver max_seconds = Some trips
           ∧ _get_trips solution = Some trips.
Proof.
  intros Hinit Hmodel Hsolver Hvars. unfold solve.
  rewrite Hmodel. simpl. rewrite Hsolver. simpl.
  rewrite init_closed in Hinit. injection Hinit as <-.
  injection Hmodel as <-.
  destruct (get_trips_total_on_model customers hubs products solution)
    as [trips Hget]; [done|].
  by exists trips.
Qed.

(** C7, as amended.  The constructor returns on every instance.  Without
    hubs the model has no variable and an empty objective, and its
    constraints are the demand constraints alone, each with an empty
    left-hand side (none at all when there is no customer either).
    Without customers only hub-to-hub variables remain, under the supply
    and hub trip constraints.  The interpreter returns on every solution
    over the model's variables; both trip lists are empty when there is no
    hub or no product, and the hub-to-customer list is empty when there is
    no customer. *)
Theorem empty_instances customers hubs products capacity env :
  ∃ self m,
    __init__ customers hubs products capacity env = Some self
    ∧ model self = Some m
    ∧ (hubs = [] →
       decision_variables m = []
       ∧ objective m = []
       ∧ constraints m
         = map (λ k, EqualityConstraint []
                       (default 0 (customer_demand k.1 !! k.2)))
             (spec_demand_pairs customers products))
    ∧ (hubs = [] → customers = [] → constraints m = [])
    ∧ (customers = [] →
       (∀ v, v ∈ decision_variables m →
             class_of v = FlightsHubHub ∨ class_of v = ProductsMoveHubHub)
       ∧ constraints m
         = spec_supply_family [] products hubs
           ++ spec_trips_hub_hub_family capacity products hubs)
    ∧ (products = [] →
       ∀ v, v ∈ decision_variables m →
            class_of v = FlightsCustomerHub ∨ class_of v = FlightsHubHub)
    ∧ (∀ solution,
         (∀ v, v ∈ solution.*1 → v ∈ decision_variables m) →
         ∃ trips,
           _get_trips solution = Some trips
           ∧ (hubs = [] ∨ products = [] →
              hub_to_customer trips = [] ∧ hub_to_hub trips = [])
           ∧ (customers = [] → hub_to_customer trips = [])).
Proof.
  eexists _, _. split; [apply init_closed|]. split; [done|]. simpl.
  split_and!.
  - intros ->. split_and!.
    + apply elem_of_nil_inv. intros v Hv.
      apply elem_of_spec_variables in Hv.
      destruct Hv as [Hv|[Hv|[Hv|Hv]]]; destruct_and? Hv;
        repeat match goal with H : ∃ _, _ |- _ => destruct H end;
        destruct_and?;
        match goal with H : _ ∈ [] |- _ => by apply elem_of_nil in H end.
    + unfold spec_objective. by rewrite list_prod_nil_r.
    + unfold spec_supply_family, spec_trips_family,
        spec_trips_hub_hub_family, spec_demand_family.
      rewrite list_prod_nil_r. simpl. by rewrite app_nil_r.
  - intros -> ->. unfold spec_supply_family, spec_trips_family,
      spec_trips_hub_hub_family, spec_demand_family. done.
  - intros ->. split; [|done]. intros v Hv.
    apply elem_of_spec_variables in Hv.
    destruct Hv as [Hv|[Hv|[Hv|Hv]]].
    + destruct Hv as (? & ? & _ & Hc & _). by apply elem_of_nil in Hc.
    + destruct Hv as (? & ? & ? & _ & Hc & _). by apply elem_of_nil in Hc.
    + destruct Hv as (? & ? & -> & _). by left.
    + destruct Hv as (? & ? & ? & -> & _). by right.
  - intros -> v Hv. apply elem_of_spec_variables in Hv.
    destruct Hv as [Hv|[Hv|[Hv|Hv]]].
    + destruct Hv as (? & ? & -> & _). by left.
    + destruct Hv as (? & ? & ? & _ & _ & _ & Hp). by apply elem_of_nil in Hp.
    + destruct Hv as (? & ? & -> & _). by right.
    + destruct Hv as (? & ? & ? & _ & _ & _ & Hp & _).
      by apply elem_of_nil in Hp.
  - intros solution Hvars.
    destruct (get_trips_total_on_model customers hubs products solution)
      as [trips Hget]; [done|].
    exists trips. split; [done|].
    destruct (get_trips_inv _ _ Hget) as [Hhc Hhh].
    assert (∀ c, (∀ v, v ∈ spec_variables customers hubs products →
                       class_of v ≠ c) →
                 filter (moved c) solution = []) as Hnone.
    { intros c Hc. apply no_trips_without_class.
      intros v Hv. by apply Hc, Hvars. }
    split.
    + intros Hempty.
      rewrite Hnone in Hhc; [rewrite Hnone in Hhh|].
      * by apply Forall2_nil_inv_l in Hhc, Hhh.
      * intros v Hv Hclass. apply elem_of_spec_variables in Hv.
        destruct Hv as [Hv|[Hv|[Hv|Hv]]].
        -- by destruct Hv as (? & ? & -> & _).
        -- by destruct Hv as (? & ? & ? & -> & _).
        -- by destruct Hv as (? & ? & -> & _).
        -- destruct Hv as (? & ? & ? & _ & Hh & _ & Hp & _).
           destruct Hempty as [-> | ->];
             [by apply elem_of_nil in Hh|by apply elem_of_nil in Hp].
      * intros v Hv Hclass. apply elem_of_spec_variables in Hv.
        destruct Hv as [Hv|[Hv|[Hv|Hv]]].
        -- by destruct Hv as (? & ? & -> & _).
        -- destruct Hv as (? & ? & ? & _ & _ & Hh & Hp).
           destruct Hempty as [-> | ->];
             [by apply elem_of_nil in Hh|by apply elem_of_nil in Hp].
        -- by destruct Hv as (? & ? & -> & _).
        -- by destruct Hv as (? & ? & ? & -> & _).
    + intros ->. rewrite Hnone in Hhc; [by apply Forall2_nil_inv_l in Hhc|].
      intros v Hv Hclass. apply elem_of_spec_variables in Hv.
      destruct Hv as [Hv|[Hv|[Hv|Hv]]].
      * by destruct Hv as (? & ? & -> & _).
      * destruct Hv as (? & ? & ? & _ & Hc & _). by apply elem_of_nil in Hc.
      * by destruct Hv as (? & ? & -> & _).
      * by destruct Hv as (? & ? & ? & -> & _).
Qed.
End Interpreter.

(** ** What the constraints imply for an assignment *)


Lemma sumZ_le_in {A : Type} (f g : A → Z) (xs : list A) :
  (∀ x, x ∈ xs → f x ≤ g x) → sumZ (map f xs) ≤ sumZ (map g xs).
Proof.
  induction xs as [|x xs IH]; intros Hfg; simpl; [done|].
  assert (f x ≤ g x) by (apply Hfg; by left).
  assert (sumZ (map f xs) ≤ sumZ (map g xs))
    by (apply IH; intros y Hy; apply Hfg; by right).
  lia.
Qed.

Lemma sumZ_nonneg {A : Type} (f : A → Z) (xs : list A) :
  (∀ x, x ∈ xs → 0 ≤ f x) → 0 ≤ sumZ (map f xs).
Proof.
  intros Hf. rewrite <-(sumZ_zero (λ _ : A, 0) xs) by done.
  by apply sumZ_le_in.
Qed.

Lemma sumZ_elem_le {A : Type} (f : A → Z) (xs : list A) (x : A) :
  (∀ y, y ∈ xs → 0 ≤ f y) → x ∈ xs → f x ≤ sumZ (map f xs).
Proof.
  induction xs as [|y xs IH]; intros Hf Hx; [by apply elem_of_nil in Hx|].
  simpl. assert (0 ≤ f y) by (apply Hf; by left).
  assert (0 ≤ sumZ (map f xs))
    by (apply sumZ_nonneg; intros z Hz; apply Hf; by right).
  apply elem_of_cons in Hx as [->|Hx]; [lia|].
  assert (f x ≤ sumZ (map f xs))
    by (apply IH; [intros z Hz; apply Hf; by right|done]).
  lia.
Qed.






Lemma Forall_map_elem {A B : Type} (P : B → Prop) (f : A → B) (l : list A) :
  Forall P (map f l) ↔ ∀ x, x ∈ l → P (f x).
Proof.
  induction l as [|x l IH]; simpl.
  - split; [by intros _ ? ?%elem_of_nil|constructor].
  - rewrite Forall_cons, IH. split.
    + intros [Hx Hl] y [->|Hy]%elem_of_cons; auto.
    + intros Hall. split; [apply Hall; by left|].
      intros y Hy. apply Hall. by right.
Qed.

Section Feasibility.
Context {Customer Hub Product Location : Type}.
Context `{ProblemObjects Customer Hub Product Location}.

Local Abbreviation IntegerVariable := (@IntegerVariable Customer Hub Product).
Local Abbreviation Model := (@Model Customer Hub Product).
Local Abbreviation SolveProductTrips :=
  (@SolveProductTrips Customer Hub Product Location).

Implicit Types (customers : list Customer) (hubs : list Hub)
  (products : list Product) (self : SolveProductTrips) (m : Model)
  (env : Environment Location) (ρ : IntegerVariable → Z).

(** The constraints of a built model, family by family. *)
Lemma holds_constraints_inv customers hubs products capacity env self m ρ :
  __init__ customers hubs products capacity env = Some self →
  model self = Some m →
  Forall (holds ρ) (constraints m) →
  (∀ k, k ∈ spec_demand_pairs customers products →
        holds ρ (spec_demand_constraint hubs k))
  ∧ (∀ k, k ∈ list_prod hubs products →
          holds ρ (spec_supply_constraint customers hubs k))
  ∧ (∀ k, k ∈ list_prod customers hubs →
          holds ρ (spec_trips_constraint capacity products k))
  ∧ (∀ k, k ∈ spec_hub_pairs hubs →
          holds ρ (spec_trips_hub_hub_constraint capacity products k)).
Proof.
  intros Hinit Hmodel Hholds.
  rewrite init_closed in Hinit. injection Hinit as <-.
  injection Hmodel as <-. simpl in Hholds.
  rewrite !Forall_app in Hholds. destruct Hholds as (Hd & Hs & Ht & Hh).
  split_and!; by apply Forall_map_elem.
Qed.

Lemma bounds_inv customers hubs products capacity env self m ρ :
  __init__ customers hubs products capacity env = Some self →
  model self = Some m →
  Forall (within_bounds ρ) (decision_variables m) →
  ∀ v, v ∈ spec_variables customers hubs products → within_bounds ρ v.
Proof.
  intros Hinit Hmodel Hbounds.
  rewrite init_closed in Hinit. injection Hinit as <-.
  injection Hmodel as <-. simpl in Hbounds.
  by rewrite Forall_forall in Hbounds.
Qed.

Lemma customer_move_nonneg customers hubs products ρ customer hub product :
  (∀ v, v ∈ spec_variables customers hubs products → within_bounds ρ v) →
  customer ∈ customers → hub ∈ hubs → product ∈ products →
  0 ≤ ρ (products_move_customer_hub (customer, hub, product)).
Proof.
  intros Hbounds Hc Hh Hp.
  destruct (Hbounds (products_move_customer_hub (customer, hub, product)))
    as [Hlo _]; [|done].
  apply elem_of_spec_variables. right; left. by exists customer, hub, product.
Qed.

Lemma hub_move_nonneg customers hubs products ρ hub1 hub2 product :
  (∀ v, v ∈ spec_variables customers hubs products → within_bounds ρ v) →
  hub1 ∈ hubs → hub2 ∈ hubs → product ∈ products → hub1 ≠ hub2 →
  0 ≤ ρ (products_move_hub_hub (hub1, hub2, product)).
Proof.
  intros Hbounds Hh1 Hh2 Hp Hne.
  destruct (Hbounds (products_move_hub_hub (hub1, hub2, product)))
    as [Hlo _]; [|done].
  apply elem_of_spec_variables. right; right; right.
  by exists hub1, hub2, product.
Qed.



(** X3.  In a feasible assignment the units of any one product moved on a
    leg are at most the flight capacity times the number of flights on that
    leg; in particular a leg without flights carries nothing.  This holds for
    hub-to-customer legs and for hub-to-hub legs. *)
Theorem no_move_without_flight customers hubs products capacity env self m ρ :
  __init__ customers hubs products capacity env = Some self →
  model self = Some m →
  feasible m ρ →
  (∀ customer hub product,
     customer ∈ customers → hub ∈ hubs → product ∈ products →
     ρ (products_move_customer_hub (customer, hub, product))
     ≤ capacity * ρ (flights_customer_hub (customer, hub))
     ∧ (ρ (flights_customer_hub (customer, hub)) = 0 →
        ρ (products_move_customer_hub (customer, hub, product)) = 0))
  ∧ (∀ hub1 hub2 product,
       hub1 ∈ hubs → hub2 ∈ hubs → hub1 ≠ hub2 → product ∈ products →
       ρ (products_move_hub_hub (hub1, hub2, product))
       ≤ capacity * ρ (flights_hub_hub (hub1, hub2))
       ∧ (ρ (flights_hub_hub (hub1, hub2)) = 0 →
          ρ (products_move_hub_hub (hub1, hub2, product)) = 0)).
Proof.
  intros Hinit Hmodel [Hholds Hbounds].
  destruct (holds_constraints_inv _ _ _ _ _ _ _ _ Hinit Hmodel Hholds)
    as (_ & _ & Htrips & Hhub).
  pose proof (bounds_inv _ _ _ _ _ _ _ _ Hinit Hmodel Hbounds) as Hb.
  split.
  - intros customer hub product Hc Hh Hp.
    specialize (Htrips (customer, hub)). rewrite holds_trips in Htrips.
    simpl in Htrips.
    pose proof (sumZ_elem_le
      (λ product, ρ (products_move_customer_hub (customer, hub, product)))
      products product) as Hle. simpl in Hle.
    assert (0 ≤ ρ (products_move_customer_hub (customer, hub, product)))
      by by apply (customer_move_nonneg customers hubs products).
    assert (ρ (products_move_customer_hub (customer, hub, product))
            ≤ capacity * ρ (flights_customer_hub (customer, hub))) as Hcap.
    { etrans; [apply Hle; [|done]|].
      - intros product' Hp'.
        by apply (customer_move_nonneg customers hubs products).
      - enough (sumZ (map (λ product0,
                  ρ (products_move_customer_hub (customer, hub, product0)))
                  products)
                - capacity * ρ (flights_customer_hub (customer, hub)) ≤ 0)
          by lia.
        apply Htrips. by apply elem_of_list_prod_iff. }
    split; [done|]. intros Hzero. rewrite Hzero in Hcap. lia.
  - intros hub1 hub2 product Hh1 Hh2 Hne Hp.
    specialize (Hhub (hub1, hub2)). rewrite holds_trips_hub_hub in Hhub.
    simpl in Hhub.
    pose proof (sumZ_elem_le
      (λ product, ρ (products_move_hub_hub (hub1, hub2, product)))
      products product) as Hle. simpl in Hle.
    assert (0 ≤ ρ (products_move_hub_hub (hub1, hub2, product)))
      by by apply (hub_move_nonneg customers hubs products).
    assert (ρ (products_move_hub_hub (hub1, hub2, product))
            ≤ capacity * ρ (flights_hub_hub (hub1, hub2))) as Hcap.
    { etrans; [apply Hle; [|done]|].
      - intros product' Hp'.
        by apply (hub_move_nonneg customers hubs products).
      - enough (sumZ (map (λ product0,
                  ρ (products_move_hub_hub (hub1, hub2, product0)))
                  products)
                - capacity * ρ (flights_hub_hub (hub1, hub2)) ≤ 0)
          by lia.
        apply Hhub. by apply elem_of_spec_hub_pairs. }
    split; [done|]. intros Hzero. rewrite Hzero in Hcap. lia.
Qed.

(** X16.  The builder accepts any flight capacity.  With a capacity of 0 or
    less, a feasible assignment moves nothing to any customer, so the model
    is feasible only if every quantity the customers list for a product of
    the instance is 0. *)
Theorem nonpositive_capacity customers hubs products capacity env self m ρ :
  __init__ customers hubs products capacity env = Some self →
  model self = Some m →
  capacity ≤ 0 →
  feasible m ρ →
  (∀ customer hub product,
     customer ∈ customers → hub ∈ hubs → product ∈ products →
     ρ (products_move_customer_hub (customer, hub, product)) = 0)
  ∧ (∀ customer product quantity,
       customer ∈ customers → product ∈ products →
       customer_demand customer !! product = Some quantity →
       quantity = 0).
Proof.
  intros Hinit Hmodel Hcap [Hholds Hbounds].
  destruct (holds_constraints_inv _ _ _ _ _ _ _ _ Hinit Hmodel Hholds)
    as (Hdemand & _ & Htrips & _).
  pose proof (bounds_inv _ _ _ _ _ _ _ _ Hinit Hmodel Hbounds) as Hb.
  assert (∀ customer hub product,
            customer ∈ customers → hub ∈ hubs → product ∈ products →
            ρ (products_move_customer_hub (customer, hub, product)) = 0)
    as Hnone.
  { intros customer hub product Hc Hh Hp.
    specialize (Htrips (customer, hub)). rewrite holds_trips in Htrips.
    simpl in Htrips.
    pose proof (sumZ_elem_le
      (λ product, ρ (products_move_customer_hub (customer, hub, product)))
      products product) as Hle. simpl in Hle.
    assert (0 ≤ ρ (products_move_customer_hub (customer, hub, product)))
      by by apply (customer_move_nonneg customers hubs products).
    assert (0 ≤ ρ (flights_customer_hub (customer, hub))) as Hflights.
    { destruct (Hb (flights_customer_hub (customer, hub))) as [Hlo _];
        [|done].
      apply elem_of_spec_variables. left. by exists customer, hub. }
    assert (ρ (products_move_customer_hub (customer, hub, product))
            ≤ sumZ (map (λ product0,
                  ρ (products_move_customer_hub (customer, hub, product0)))
                  products)) as Hsum.
    { apply Hle; [|done]. intros product' Hp'.
      by apply (customer_move_nonneg customers hubs products). }
    assert (sumZ (map (λ product0,
                  ρ (products_move_customer_hub (customer, hub, product0)))
                  products)
            - capacity * ρ (flights_customer_hub (customer, hub)) ≤ 0)
      as Hleg by (apply Htrips; by apply elem_of_list_prod_iff).
    nia. }
  split; [done|].
  intros customer product quantity Hc Hp Hq.
  specialize (Hdemand (customer, product)).
  rewrite holds_demand in Hdemand. simpl in Hdemand.
  rewrite Hq, sumZ_zero in Hdemand.
  - simpl in Hdemand. symmetry. apply Hdemand.
    apply list_elem_of_filter. simpl. split.
    + apply elem_of_dom. eauto.
    + by apply elem_of_list_prod_iff.
  - intros hub Hh. by apply Hnone.
Qed.

(** X4.  When the environment reports no negative distance, the objective of
    the model is never negative on an assignment that respects the bounds of
    the variables. *)
Theorem objective_nonneg customers hubs products capacity env self m ρ :
  __init__ customers hubs products capacity env = Some self →
  model self = Some m →
  (∀ a b, 0 ≤ get_distance env a b) →
  Forall (within_bounds ρ) (decision_variables m) →
  0 ≤ le_eval ρ (objective m).
Proof.
  intros Hinit Hmodel Hdist Hbounds.
  pose proof (bounds_inv _ _ _ _ _ _ _ _ Hinit Hmodel Hbounds) as Hb.
  rewrite init_closed in Hinit. injection Hinit as <-.
  injection Hmodel as <-. simpl. unfold spec_objective.
  rewrite le_eval_app, !le_eval_weighted.
  assert (0 ≤ sumZ (map (λ k, get_distance env (hub_location k.2)
                                (customer_location k.1)
                              * ρ (flights_customer_hub k))
                      (list_prod customers hubs))).
  { apply sumZ_nonneg. intros [customer hub] [Hc Hh]%elem_of_list_prod_iff.
    destruct (Hb (flights_customer_hub (customer, hub))) as [Hlo _].
    - apply elem_of_spec_variables. left. by exists customer, hub.
    - change (lower_bound (flights_customer_hub (customer, hub))) with 0 in Hlo.
      apply Z.mul_nonneg_nonneg; [apply Hdist|done]. }
  assert (0 ≤ sumZ (map (λ k, get_distance env (hub_location k.1)
                                (hub_location k.2)
                              * ρ (flights_hub_hub k))
                      (spec_hub_pairs hubs))).
  { apply sumZ_nonneg.
    intros [hub1 hub2] (Hh1 & Hh2 & Hne)%elem_of_spec_hub_pairs.
    destruct (Hb (flights_hub_hub (hub1, hub2))) as [Hlo _].
    - apply elem_of_spec_variables. right; right; left. by exists hub1, hub2.
    - change (lower_bound (flights_hub_hub (hub1, hub2))) with 0 in Hlo.
      apply Z.mul_nonneg_nonneg; [apply Hdist|done]. }
  lia.
Qed.

(** X5.  Without hubs the model has constraints only of the form
    [0 = demanded quantity]: it is feasible exactly when every quantity the
    customers list for a product of the instance is 0, and then every
    assignment is feasible. *)
Theorem no_hub_feasibility customers products capacity env :
  ∃ self m,
    __init__ customers [] products capacity env = Some self
    ∧ model self = Some m
    ∧ ∀ ρ, feasible m ρ
           ↔ ∀ customer product quantity,
               customer ∈ customers → product ∈ products →
               customer_demand customer !! product = Some quantity →
               quantity = 0.
Proof.
  eexists _, _. split; [apply init_closed|]. split; [done|].
  intros ρ. unfold feasible. simpl.
  assert (spec_variables customers [] products = []) as ->.
  { apply elem_of_nil_inv. intros v Hv. apply elem_of_spec_variables in Hv.
    destruct Hv as [Hv|[Hv|[Hv|Hv]]].
    - destruct Hv as (? & ? & _ & _ & Hh). by apply elem_of_nil in Hh.
    - destruct Hv as (? & ? & ? & _ & _ & Hh & _). by apply elem_of_nil in Hh.
    - destruct Hv as (? & ? & _ & Hh & _). by apply elem_of_nil in Hh.
    - destruct Hv as (? & ? & ? & _ & Hh & _). by apply elem_of_nil in Hh. }
  unfold spec_supply_family, spec_trips_family, spec_trips_hub_hub_family,
    spec_demand_family.
  rewrite list_prod_nil_r. simpl. rewrite app_nil_r, Forall_map_elem.
  split.
  - intros [Hdemand _] customer product quantity Hc Hp Hq.
    specialize (Hdemand (customer, product)).
    rewrite holds_demand in Hdemand. simpl in Hdemand.
    rewrite Hq in Hdemand. simpl in Hdemand. symmetry. apply Hdemand.
    apply list_elem_of_filter. simpl. split.
    + apply elem_of_dom. eauto.
    + by apply elem_of_list_prod_iff.
  - intros Hzero. split; [|constructor].
    intros [customer product] [Hdom [Hc Hp]%elem_of_list_prod_iff]%list_elem_of_filter.
    simpl in Hdom. apply elem_of_dom in Hdom as [quantity Hq].
    rewrite holds_demand. simpl. rewrite Hq. simpl.
    symmetry. by apply (Hzero customer product).
Qed.
End Feasibility.

(** ** More on the interpreter, the catalogs and the builders *)

Lemma for_each_app_bind {A S : Type} (xs ys : list A)
    (body : S → A → option S) (s : S) :
  for_each (xs ++ ys) body s = for_each xs body s ≫= for_each ys body.
Proof.
  revert s. induction xs as [|x xs IH]; intros s; simpl; [done|].
  destruct (body s x); simpl; [apply IH|done].
Qed.

Lemma for_each_cons {A S : Type} (x : A) (xs : list A)
    (body : S → A → option S) (s : S) :
  for_each (x :: xs) body s = body s x ≫= for_each xs body.
Proof. reflexivity. Qed.

(** A loop raises as soon as its body raises on one element, whatever the
    state it is reached in. *)
Lemma for_each_raises {A S : Type} (xs : list A) (body : S → A → option S)
    (s : S) (x : A) :
  x ∈ xs → (∀ s, body s x = None) → for_each xs body s = None.
Proof.
  revert s. induction xs as [|y xs IH]; intros s Hx Hnone;
    [by apply elem_of_nil in Hx|].
  simpl. destruct (body s y) as [s'|] eqn:Hy; simpl; [|done].
  apply elem_of_cons in Hx as [->|Hx]; [|by apply IH].
  by rewrite Hnone in Hy.
Qed.

(** *** Counting index tuples *)

Lemma list_prod_app_l {A B : Type} (xs xs' : list A) (ys : list B) :
  list_prod (xs ++ xs') ys = list_prod xs ys ++ list_prod xs' ys.
Proof. induction xs as [|x xs IH]; simpl; [done|]. by rewrite IH, app_assoc. Qed.

(** The triples of [itertools.product] are the pairs of pairs. *)
Lemma product3_list_prod {A B C : Type} (xs : list A) (ys : list B)
    (zs : list C) :
  product3 xs ys zs = list_prod (list_prod xs ys) zs.
Proof.
  unfold product3. induction xs as [|x xs IH]; simpl; [done|].
  rewrite list_prod_app_l, IH. f_equal. clear IH.
  induction ys as [|y ys IHy]; simpl; [done|]. by rewrite IHy.
Qed.

Lemma NoDup_product3 {A B C : Type} (xs : list A) (ys : list B) (zs : list C) :
  NoDup xs → NoDup ys → NoDup zs → NoDup (product3 xs ys zs).
Proof.
  intros Hxs Hys Hzs. rewrite product3_list_prod.
  by apply NoDup_list_prod; [apply NoDup_list_prod|].
Qed.

Lemma length_filter_fst {A B : Type} (P : A → Prop) `{∀ x, Decision (P x)}
    (Q : A * B → Prop) `{∀ k, Decision (Q k)} (xs : list A) (ys : list B) :
  (∀ k, Q k ↔ P k.1) →
  length (filter Q (list_prod xs ys))
  = (length (filter P xs) * length ys)%nat.
Proof.
  intros HQ. induction xs as [|x xs IH]; simpl; [done|].
  rewrite filter_app, length_app, IH, filter_cons. clear IH.
  assert (length (filter Q (map (λ y, (x, y)) ys))
          = if decide (P x) then length ys else 0%nat) as ->.
  { destruct (decide (P x)) as [HP|HP];
      induction ys as [|y ys IHy]; simpl; try done; rewrite filter_cons.
    - rewrite decide_True by by apply HQ. simpl. by rewrite IHy.
    - rewrite decide_False; [done|]. intros HQx. by apply HQ in HQx. }
  destruct (decide (P x)); simpl; lia.
Qed.

Lemma filter_ne_id {A : Type} `{EqDecision A} (x : A) (ys : list A) :
  x ∉ ys → filter (λ y, x ≠ y) ys = ys.
Proof.
  induction ys as [|y ys IH]; intros Hx; [done|].
  rewrite filter_cons. apply not_elem_of_cons in Hx as [Hne Hx].
  rewrite decide_True by done. by rewrite IH.
Qed.

Lemma length_filter_ne {A : Type} `{EqDecision A} (x : A) (ys : list A) :
  NoDup ys → x ∈ ys →
  length (filter (λ y, x ≠ y) ys) = (length ys - 1)%nat.
Proof.
  induction 1 as [|y ys Hy Hys IH]; intros Hx; [by apply elem_of_nil in Hx|].
  rewrite filter_cons. destruct (decide (x = y)) as [->|Hne].
  - rewrite decide_False by (intros Hn; by apply Hn).
    rewrite filter_ne_id by done. simpl. lia.
  - rewrite decide_True by done. simpl.
    apply elem_of_cons in Hx as [?|Hx]; [done|]. rewrite IH by done.
    destruct ys; [by apply elem_of_nil in Hx|]. simpl. lia.
Qed.

Lemma length_distinct_pairs {A : Type} `{EqDecision A} (xs ys : list A) :
  NoDup ys → (∀ x, x ∈ xs → x ∈ ys) →
  length (filter (λ k, k.1 ≠ k.2) (list_prod xs ys))
  = (length xs * (length ys - 1))%nat.
Proof.
  intros Hys. induction xs as [|x xs IH]; intros Hsub; simpl; [done|].
  rewrite filter_app, length_app, IH by (intros y Hy; apply Hsub; by right).
  assert (length (filter (λ k : A * A, k.1 ≠ k.2) (map (λ y, (x, y)) ys))
          = length (filter (λ y, x ≠ y) ys)) as ->.
  { clear. induction ys as [|y ys IHy]; simpl; [done|].
    rewrite !filter_cons. simpl.
    destruct (decide (x ≠ y)); simpl; by rewrite IHy. }
  rewrite length_filter_ne; [lia|done|]. apply Hsub. by left.
Qed.

Section Composition.
Context {Customer Hub Product Location : Type}.
Context `{ProblemObjects Customer Hub Product Location}.

Local Abbreviation IntegerVariable := (@IntegerVariable Customer Hub Product).
Local Abbreviation Model := (@Model Customer Hub Product).
Local Abbreviation Trip := (@Trip Customer Hub Product).
Local Abbreviation Trips := (@Trips Customer Hub Product).
Local Abbreviation SolveProductTrips :=
  (@SolveProductTrips Customer Hub Product Location).

Implicit Types (customers : list Customer) (hubs : list Hub)
  (products : list Product) (self : SolveProductTrips) (m : Model)
  (env : Environment Location) (solution : list (IntegerVariable * Z))
  (ρ : IntegerVariable → Z).

Lemma get_trips_step_shift (acc : list Trip * list Trip)
    (e : IntegerVariable * Z) :
  _get_trips_step acc e
  = r ← _get_trips_step ([], []) e; Some (acc.1 ++ r.1, acc.2 ++ r.2).
Proof.
  destruct acc as [thc thh], e as [variable value]. unfold _get_trips_step.
  destruct (bool_decide (value ≠ 0)
            && isinstance variable ProductsMoveCustomerHub);
    destruct (bool_decide (value ≠ 0)
              && isinstance variable ProductsMoveHubHub);
    repeat (match goal with
            | |- context [data ?v !! ?k] => destruct (data v !! k)
            end; simpl);
    simpl; by rewrite ?app_nil_r.
Qed.

Lemma get_trips_loop_shift solution (acc : list Trip * list Trip) :
  for_each solution _get_trips_step acc
  = r ← for_each solution _get_trips_step ([], []);
    Some (acc.1 ++ r.1, acc.2 ++ r.2).
Proof.
  revert acc. induction solution as [|e solution IH]; intros acc.
  - destruct acc. simpl. by rewrite !app_nil_r.
  - rewrite !for_each_cons, (get_trips_step_shift acc e).
    destruct (_get_trips_step ([], []) e) as [r|]; simpl; [|done].
    rewrite (IH (acc.1 ++ r.1, acc.2 ++ r.2)), (IH r).
    destruct (for_each solution _get_trips_step ([], [])) as [r'|];
      simpl; [|done].
    by rewrite !app_assoc.
Qed.

(** X6.  The interpreter works entry by entry: the trips of two solutions
    put end to end are the trips of the first followed by the trips of the
    second, list by list, and it raises on the whole exactly when it raises
    on one of the parts. *)
Theorem get_trips_app solution1 solution2 :
  _get_trips (solution1 ++ solution2)
  = trips1 ← _get_trips solution1;
    trips2 ← _get_trips solution2;
    Some {| hub_to_customer := hub_to_customer trips1 ++ hub_to_customer trips2;
            hub_to_hub := hub_to_hub trips1 ++ hub_to_hub trips2 |}.
Proof.
  unfold _get_trips. rewrite for_each_app_bind.
  destruct (for_each solution1 _get_trips_step ([], [])) as [r1|];
    simpl; [|done].
  rewrite (get_trips_loop_shift solution2 r1).
  by destruct (for_each solution2 _get_trips_step ([], [])).
Qed.

Lemma get_trips_step_idle (acc : list Trip * list Trip)
    (e : IntegerVariable * Z) :
  ¬ moved ProductsMoveCustomerHub e → ¬ moved ProductsMoveHubHub e →
  _get_trips_step acc e = Some acc.
Proof.
  destruct acc as [thc thh], e as [variable value]. intros Hc Hh.
  unfold _get_trips_step.
  pose proof (moved_spec ProductsMoveCustomerHub variable value) as Hmc.
  pose proof (moved_spec ProductsMoveHubHub variable value) as Hmh.
  destruct (bool_decide (value ≠ 0)
            && isinstance variable ProductsMoveCustomerHub);
    [exfalso; by apply Hc, Hmc|].
  destruct (bool_decide (value ≠ 0)
            && isinstance variable ProductsMoveHubHub);
    [exfalso; by apply Hh, Hmh|].
  done.
Qed.

Lemma get_trips_loop_idle solution (acc : list Trip * list Trip) :
  for_each
    (filter (λ e, moved ProductsMoveCustomerHub e
                  ∨ moved ProductsMoveHubHub e) solution)
    _get_trips_step acc
  = for_each solution _get_trips_step acc.
Proof.
  revert acc. induction solution as [|e solution IH]; intros acc; [done|].
  rewrite filter_cons.
  destruct (decide (moved ProductsMoveCustomerHub e
                    ∨ moved ProductsMoveHubHub e)) as [Hm|Hm];
    rewrite !for_each_cons.
  - destruct (_get_trips_step acc e); simpl; [apply IH|done].
  - rewrite get_trips_step_idle by tauto. simpl. apply IH.
Qed.

(** X7.  Entries whose value is 0 and entries for flight variables are
    skipped without being looked at: dropping them from the solution changes
    neither the trips nor whether the interpreter raises. *)
Theorem get_trips_skips_idle_entries solution :
  _get_trips
    (filter (λ e, moved ProductsMoveCustomerHub e
                  ∨ moved ProductsMoveHubHub e) solution)
  = _get_trips solution.
Proof. unfold _get_trips. by rewrite get_trips_loop_idle. Qed.

Lemma get_trips_all_zero solution :
  (∀ e, e ∈ solution → e.2 = 0) →
  _get_trips solution = Some {| hub_to_customer := []; hub_to_hub := [] |}.
Proof.
  intros Hzero. unfold _get_trips. rewrite <-get_trips_loop_idle.
  assert (filter (λ e, moved ProductsMoveCustomerHub e
                       ∨ moved ProductsMoveHubHub e) solution = []) as ->.
  { apply elem_of_nil_inv. intros e [Hm He]%list_elem_of_filter.
    apply Hzero in He. unfold moved in Hm. tauto. }
  done.
Qed.

Lemma le_eval_zero (le : list (IntegerVariable * Z)) :
  le_eval (λ _, 0) le = 0.
Proof. unfold le_eval. apply sumZ_zero. intros t _. lia. Qed.

(** X8.  Flying nothing (every variable at 0) is feasible exactly when every
    quantity the customers list for a product of the instance is 0 and no
    hub reports a negative stock of a product of the instance; it costs 0
    and is interpreted into no trip at all. *)
Theorem zero_assignment customers hubs products capacity env :
  ∃ self m,
    __init__ customers hubs products capacity env = Some self
    ∧ model self = Some m
    ∧ (feasible m (λ _, 0)
       ↔ (∀ customer product quantity,
            customer ∈ customers → product ∈ products →
            customer_demand customer !! product = Some quantity →
            quantity = 0)
         ∧ (∀ hub product,
              hub ∈ hubs → product ∈ products →
              0 ≤ get_available_items hub product))
    ∧ le_eval (λ _, 0) (objective m) = 0
    ∧ _get_trips (map (λ v, (v, 0)) (decision_variables m))
      = Some {| hub_to_customer := []; hub_to_hub := [] |}.
Proof.
  eexists _, _. split; [apply init_closed|]. split; [done|]. simpl.
  split_and!; [|apply le_eval_zero|].
  2:{ apply get_trips_all_zero. intros e (v & -> & _)%list_elem_of_fmap. done. }
  unfold feasible. simpl. rewrite !Forall_app.
  unfold spec_demand_family, spec_supply_family, spec_trips_family,
    spec_trips_hub_hub_family. rewrite !Forall_map_elem.
  split.
  - intros [(Hdemand & Hsupply & _ & _) _].
    assert (∀ customer product quantity,
              customer ∈ customers → product ∈ products →
              customer_demand customer !! product = Some quantity →
              quantity = 0) as Hzero.
    { intros customer product quantity Hc Hp Hq.
      specialize (Hdemand (customer, product)).
      rewrite holds_demand in Hdemand. simpl in Hdemand.
      rewrite Hq, sumZ_zero in Hdemand by done. simpl in Hdemand.
      symmetry. apply Hdemand. apply list_elem_of_filter. simpl. split.
      - apply elem_of_dom. eauto.
      - by apply elem_of_list_prod_iff. }
    split; [done|].
    intros hub product Hh Hp. specialize (Hsupply (hub, product)).
    rewrite holds_supply in Hsupply. simpl in Hsupply.
    rewrite !sumZ_zero in Hsupply by (intros; lia).
    apply Hsupply. by apply elem_of_list_prod_iff.
  - intros (Hzero & Hstock). split; [split_and!|].
    + intros [customer product]
        [Hdom [Hc Hp]%elem_of_list_prod_iff]%list_elem_of_filter.
      simpl in Hdom. apply elem_of_dom in Hdom as [quantity Hq].
      rewrite holds_demand. simpl. rewrite Hq, sumZ_zero by done. simpl.
      symmetry. by apply (Hzero customer product).
    + intros [hub product] [Hh Hp]%elem_of_list_prod_iff.
      rewrite holds_supply. simpl. rewrite !sumZ_zero by (intros; lia).
      by apply Hstock.
    + intros k _. rewrite holds_trips, sumZ_zero by done. lia.
    + intros k _. rewrite holds_trips_hub_hub, sumZ_zero by done. lia.
    + apply Forall_forall. intros v Hv. apply elem_of_spec_variables in Hv.
      destruct Hv as [Hv|[Hv|[Hv|Hv]]].
      * destruct Hv as (? & ? & -> & _). by split.
      * destruct Hv as (customer & hub & product & -> & Hc & _ & Hp).
        split; [done|]. rewrite customer_move_upper_bound.
        destruct (customer_demand customer !! product) as [q|] eqn:Hq; [|done].
        by rewrite (Hzero customer product q).
      * destruct Hv as (? & ? & -> & _). by split.
      * destruct Hv as (? & ? & ? & -> & _). by split.
Qed.

(** *** The catalogs *)

Lemma customer_hub_data_flights customer hub :
  data (flights_customer_hub (customer, hub)) !! "customer"
  = Some (OCustomer customer)
  ∧ data (flights_customer_hub (customer, hub)) !! "hub" = Some (OHub hub).
Proof. unfold flights_customer_hub. simpl. by simplify_map_eq. Qed.

Lemma flights_customer_hub_inj (k k' : Customer * Hub) :
  flights_customer_hub k = flights_customer_hub k' → k = k'.
Proof.
  destruct k as [c h], k' as [c' h']. intros Heq.
  destruct (customer_hub_data_flights c h) as [Hc Hh].
  destruct (customer_hub_data_flights c' h') as [Hc' Hh'].
  rewrite Heq in Hc, Hh. congruence.
Qed.

Lemma products_move_customer_hub_inj (k k' : Customer * Hub * Product) :
  products_move_customer_hub k = products_move_customer_hub k' → k = k'.
Proof.
  destruct k as [[c h] p], k' as [[c' h'] p']. intros Heq.
  destruct (customer_hub_data_moves c h p) as (Hh & Hc & Hp).
  destruct (customer_hub_data_moves c' h' p') as (Hh' & Hc' & Hp').
  rewrite Heq in Hc, Hh, Hp. congruence.
Qed.

Lemma flights_hub_hub_inj (k k' : Hub * Hub) :
  flights_hub_hub k = flights_hub_hub k' → k = k'.
Proof.
  destruct k as [h1 h2], k' as [h1' h2']. intros Heq.
  destruct (hub_hub_data_flights h1 h2) as [Hh1 Hh2].
  destruct (hub_hub_data_flights h1' h2') as [Hh1' Hh2'].
  rewrite Heq in Hh1, Hh2. congruence.
Qed.

Lemma products_move_hub_hub_inj (k k' : Hub * Hub * Product) :
  products_move_hub_hub k = products_move_hub_hub k' → k = k'.
Proof.
  destruct k as [[h1 h2] p], k' as [[h1' h2'] p']. intros Heq.
  destruct (hub_hub_data_moves h1 h2 p) as (Hh1 & Hh2 & Hp).
  destruct (hub_hub_data_moves h1' h2' p') as (Hh1' & Hh2' & Hp').
  rewrite Heq in Hh1, Hh2, Hp. congruence.
Qed.

Lemma NoDup_catalog_values {K : Type} `{EqDecision K}
    (val : K → IntegerVariable) (ks : list K) :
  (∀ k k', val k = val k' → k = k') →
  NoDup (map val (first_occurrences [] ks)).
Proof.
  intros Hinj. apply (NoDup_fmap_2_strong val).
  - intros k k' _ _. apply Hinj.
  - apply NoDup_first_occurrences, NoDup_nil_2.
Qed.

Lemma NoDup_app_classes (c : VariableClass) (l1 l2 : list IntegerVariable) :
  (∀ v, v ∈ l1 → class_of v = c) → (∀ v, v ∈ l2 → class_of v ≠ c) →
  NoDup l1 → NoDup l2 → NoDup (l1 ++ l2).
Proof.
  intros H1c H2c Hl1 Hl2. apply NoDup_app. split_and!; [done| |done].
  intros v Hv1 Hv2. by apply (H2c v Hv2), H1c.
Qed.

Lemma spec_variables_NoDup customers hubs products :
  NoDup (spec_variables customers hubs products).
Proof.
  unfold spec_variables.
  apply (NoDup_app_classes FlightsCustomerHub);
    [| |apply NoDup_catalog_values, flights_customer_hub_inj|].
  { intros v (k & -> & _)%list_elem_of_fmap. by destruct k. }
  { intros v. rewrite !elem_of_app, !list_elem_of_fmap.
    intros [(k & -> & _)|[(k & -> & _)|(k & -> & _)]].
    - by destruct k as [[] ?].
    - by destruct k.
    - by destruct k as [[] ?]. }
  apply (NoDup_app_classes ProductsMoveCustomerHub);
    [| |apply NoDup_catalog_values, products_move_customer_hub_inj|].
  { intros v (k & -> & _)%list_elem_of_fmap. by destruct k as [[] ?]. }
  { intros v. rewrite !elem_of_app, !list_elem_of_fmap.
    intros [(k & -> & _)|(k & -> & _)].
    - by destruct k.
    - by destruct k as [[] ?]. }
  apply (NoDup_app_classes FlightsHubHub);
    [| |apply NoDup_catalog_values, flights_hub_hub_inj
       |apply NoDup_catalog_values, products_move_hub_hub_inj].
  { intros v (k & -> & _)%list_elem_of_fmap. by destruct k. }
  { intros v (k & -> & _)%list_elem_of_fmap. by destruct k as [[] ?]. }
Qed.

(** X9.  The variable list of a model never holds the same variable twice,
    even when a customer, a hub or a product is repeated in the input: a
    repeated index tuple overwrites its own catalog entry. *)
Theorem decision_variables_distinct customers hubs products capacity env :
  ∃ self m,
    __init__ customers hubs products capacity env = Some self
    ∧ model self = Some m
    ∧ NoDup (decision_variables m)
    ∧ (∀ customer hub,
         customer ∈ customers → hub ∈ hubs →
         flights_customer_hub (customer, hub) ∈ decision_variables m)
    ∧ (∀ customer hub product,
         customer ∈ customers → hub ∈ hubs → product ∈ products →
         products_move_customer_hub (customer, hub, product)
         ∈ decision_variables m).
Proof.
  eexists _, _. split; [apply init_closed|]. split; [done|]. simpl.
  split_and!.
  - apply spec_variables_NoDup.
  - intros customer hub Hc Hh. apply elem_of_spec_variables. left.
    by exists customer, hub.
  - intros customer hub product Hc Hh Hp.
    apply elem_of_spec_variables. right; left.
    by exists customer, hub, product.
Qed.

(** X10.  Every variable of the model can be found again from what it
    carries: its class names the catalog, its [data] is the index tuple, and
    the catalog holds that very variable under that tuple. *)
Theorem variables_stored_under_their_index customers hubs products capacity
    env :
  ∃ self m d1 d2 d3 d4,
    __init__ customers hubs products capacity env = Some self
    ∧ model self = Some m
    ∧ n_flights_variables self = Some d1
    ∧ n_product_move_variables self = Some d2
    ∧ n_flights_hub_to_hub_variables self = Some d3
    ∧ n_products_move_hub_to_hub_variables self = Some d4
    ∧ ∀ v, v ∈ decision_variables m →
        match class_of v with
        | FlightsCustomerHub =>
            ∃ customer hub,
              data v = {[ "customer" := OCustomer customer;
                          "hub" := OHub hub ]}
              ∧ dict_get (customer, hub) d1 = Some v
        | ProductsMoveCustomerHub =>
            ∃ customer hub product,
              data v = {[ "customer" := OCustomer customer;
                          "hub" := OHub hub;
                          "product" := OProduct product ]}
              ∧ dict_get (customer, hub, product) d2 = Some v
        | FlightsHubHub =>
            ∃ hub1 hub2,
              data v = {[ "hub1" := OHub hub1; "hub2" := OHub hub2 ]}
              ∧ dict_get (hub1, hub2) d3 = Some v
        | ProductsMoveHubHub =>
            ∃ hub1 hub2 product,
              data v = {[ "hub1" := OHub hub1; "hub2" := OHub hub2;
                          "product" := OProduct product ]}
              ∧ dict_get (hub1, hub2, product) d4 = Some v
        end.
Proof.
  eexists _, _, _, _, _, _. split; [apply init_closed|]. simpl.
  split_and!; try done.
  intros v Hv. apply elem_of_spec_variables in Hv.
  destruct Hv as [Hv|[Hv|[Hv|Hv]]].
  - destruct Hv as (customer & hub & -> & Hc & Hh).
    exists customer, hub. split; [done|]. by apply customer_hub_key.
  - destruct Hv as (customer & hub & product & -> & Hc & Hh & Hp).
    exists customer, hub, product. split; [done|].
    by apply dict_get_comprehension, elem_of_product3.
  - destruct Hv as (hub1 & hub2 & -> & Hh1 & Hh2 & Hne).
    exists hub1, hub2. split; [done|]. by apply hub_pair_key.
  - destruct Hv as (hub1 & hub2 & product & -> & Hh1 & Hh2 & Hp & Hne).
    exists hub1, hub2, product. split; [done|]. by apply hub_hub_key.
Qed.

(** *** The builders outside the constructor *)

(** The objective and the constraints both read the customer–hub flight
    catalog for every (customer, hub) pair: one pair that cannot be read
    makes both raise. *)
Lemma builders_raise customers hubs products self customer hub :
  customer ∈ customers → hub ∈ hubs →
  n_flights_variables self ≫= dict_get (customer, hub) = None →
  get_objective self customers hubs = None
  ∧ get_constraints self customers hubs products = None.
Proof.
  intros Hc Hh Hnone. split.
  - unfold get_objective.
    rewrite (for_each_raises _ _ _ (customer, hub)); [done| |].
    + by apply elem_of_list_prod_iff.
    + intros le. simpl.
      destruct (n_flights_variables self) as [d|]; simpl in *; [|done].
      by rewrite Hnone.
  - unfold get_constraints.
    assert (_get_trips_constraints self customers products hubs = None) as Ht.
    { unfold _get_trips_constraints.
      apply (for_each_raises _ _ _ (customer, hub)).
      - by apply elem_of_list_prod_iff.
      - intros constraints. simpl.
        destruct (for_each products _ LinearExpression_new); simpl; [|done].
        destruct (n_flights_variables self) as [d|]; simpl in *; [|done].
        by rewrite Hnone. }
    destruct (_get_demand_constraints self customers products hubs);
      simpl; [|done].
    destruct (_get_supply_constraints self customers products hubs);
      simpl; [|done].
    by rewrite Ht.
Qed.

(** X11.  The objective and the constraints can only be built after
    [get_variables] has stored the catalogs: on an object whose flight
    catalog is not set yet, and with at least one customer and one hub, both
    raise. *)
Theorem builders_need_catalogs customers hubs products self :
  n_flights_variables self = None →
  customers ≠ [] → hubs ≠ [] →
  get_objective self customers hubs = None
  ∧ get_constraints self customers hubs products = None.
Proof.
  intros Hunset Hc Hh.
  destruct customers as [|customer customers]; [done|].
  destruct hubs as [|hub hubs]; [done|].
  apply (builders_raise _ _ _ _ customer hub); [by left|by left|].
  by rewrite Hunset.
Qed.

(** X12.  The catalogs only know the instance [get_variables] was called
    on: the objective and the constraints both raise when the customer list
    and the hub list they are asked about hold a customer and a hub of which
    at least one is outside that instance (the key of the pair is missing
    from the flight catalog). *)
Theorem builders_raise_on_unknown_index customers hubs products self0
    customers' hubs' products' customer hub :
  customer ∈ customers' → hub ∈ hubs' →
  customer ∉ customers ∨ hub ∉ hubs →
  get_objective (get_variables self0 customers hubs products).1
    customers' hubs' = None
  ∧ get_constraints (get_variables self0 customers hubs products).1
      customers' hubs' products' = None.
Proof.
  intros Hc Hh Hunknown.
  apply (builders_raise _ _ _ _ customer hub); [done|done|]. simpl.
  apply dict_get_comprehension_None.
  rewrite elem_of_list_prod_iff. tauto.
Qed.

(** X13.  The size of the model.  When no customer, hub or product is
    repeated, the model has one flight variable per (customer, hub) pair and
    per ordered pair of distinct hubs, and one move variable per such pair
    and product; it has one constraint per demand entry, per (hub, product),
    per (customer, hub) and per ordered pair of distinct hubs. *)
Theorem model_size customers hubs products capacity env :
  NoDup customers → NoDup hubs → NoDup products →
  ∃ self m,
    __init__ customers hubs products capacity env = Some self
    ∧ model self = Some m
    ∧ length (decision_variables m)
      = ((length customers * length hubs
          + length hubs * (length hubs - 1))
         * (1 + length products))%nat
    ∧ length (constraints m)
      = (length (spec_demand_pairs customers products)
         + length hubs * length products
         + length customers * length hubs
         + length hubs * (length hubs - 1))%nat
    ∧ (length (spec_demand_pairs customers products)
       ≤ length customers * length products)%nat.
Proof.
  intros Hc Hh Hp.
  eexists _, _. split; [apply init_closed|]. split; [done|]. simpl.
  assert (length (spec_hub_pairs hubs)
          = (length hubs * (length hubs - 1))%nat) as Hpairs
    by by apply length_distinct_pairs.
  split_and!.
  - unfold spec_variables.
    rewrite !first_occurrences_NoDup; simpl;
      [|by apply NoDup_filter, NoDup_product3
       |by apply NoDup_filter, NoDup_list_prod
       |by apply NoDup_product3
       |by apply NoDup_list_prod].
    rewrite !length_app, !length_map, !product3_list_prod.
    assert (length (filter (λ k : Hub * Hub * Product, k.1.1 ≠ k.1.2)
                      (list_prod (list_prod hubs hubs) products))
            = (length (filter (λ k : Hub * Hub, k.1 ≠ k.2)
                         (list_prod hubs hubs)) * length products)%nat) as ->
      by by apply (length_filter_fst (λ k : Hub * Hub, k.1 ≠ k.2)).
    unfold spec_hub_pairs in *. rewrite Hpairs, !length_prod. lia.
  - unfold spec_demand_family, spec_supply_family, spec_trips_family,
      spec_trips_hub_hub_family.
    rewrite !length_app, !length_map, Hpairs, !length_prod. lia.
  - unfold spec_demand_pairs. etrans; [apply length_filter|].
    by rewrite length_prod.
Qed.

(** *** Shipments per leg *)

Lemma shipped_reads (l : list (IntegerVariable * Z)) (ts : list Trip)
    hub customer :
  Forall2 (reads "hub" "customer") l ts →
  shipped ts hub customer = sumZ (map snd (filter (on_leg customer hub) l)).
Proof.
  unfold shipped. induction 1 as [|e t l ts Hread _ IH]; [done|].
  rewrite !filter_cons. destruct Hread as (Ho & Hd & _ & Hq).
  destruct (decide (origin t = OHub hub
                    ∧ destination t = OCustomer customer)) as [[Ht1 Ht2]|Hn].
  - rewrite decide_True.
    + simpl. by rewrite IH, Hq.
    + split; congruence.
  - rewrite decide_False; [done|].
    intros [He1 He2]. apply Hn. split; congruence.
Qed.

Lemma leg_entries_perm customers hubs products solution customer hub :
  NoDup products →
  NoDup solution.*1 →
  (∀ v, v ∈ solution.*1 ↔ v ∈ spec_variables customers hubs products) →
  customer ∈ customers → hub ∈ hubs →
  filter (λ e, class_of e.1 = ProductsMoveCustomerHub
               ∧ on_leg customer hub e) solution
  ≡ₚ map (λ product,
            (products_move_customer_hub (customer, hub, product),
             value_in solution
               (products_move_customer_hub (customer, hub, product))))
       products.
Proof.
  intros Hproducts Hkeys Hvars Hc Hh. apply NoDup_Permutation.
  - apply NoDup_filter. by apply NoDup_fmap_1 in Hkeys.
  - apply NoDup_fmap_2_strong; [|done].
    intros product product' _ _ Heq. apply (f_equal fst) in Heq.
    simpl in Heq. apply products_move_customer_hub_inj in Heq. congruence.
  - intros [v x]. rewrite list_elem_of_filter, list_elem_of_fmap. simpl.
    split.
    + intros [[Hclass [Hcust Hhub]] Hin]. simpl in Hcust, Hhub.
      assert (v ∈ solution.*1) as Hv
        by (apply list_elem_of_fmap; by exists (v, x)).
      apply Hvars, elem_of_spec_variables in Hv.
      destruct Hv as [Hv|[Hv|[Hv|Hv]]].
      * by destruct Hv as (? & ? & -> & _).
      * destruct Hv as (customer' & hub' & product & -> & _ & _ & Hp).
        destruct (customer_hub_data_moves customer' hub' product)
          as (Hhub' & Hcust' & _).
        assert (customer' = customer) as -> by congruence.
        assert (hub' = hub) as -> by congruence.
        exists product. split; [|done]. f_equal.
        unfold value_in. by rewrite (dict_get_NoDup solution _ x).
      * by destruct Hv as (? & ? & -> & _).
      * by destruct Hv as (? & ? & ? & -> & _).
    + intros (product & Heq & Hp).
      apply pair_equal_spec in Heq as [-> ->].
      destruct (customer_hub_data_moves customer hub product)
        as (Hhub & Hcust & _).
      split; [by repeat split|].
      assert (products_move_customer_hub (customer, hub, product)
              ∈ solution.*1) as Hv.
      { apply Hvars, elem_of_spec_variables. right; left.
        by exists customer, hub, product. }
      apply dict_get_is_Some in Hv as [x Hx].
      unfold value_in. rewrite Hx. simpl. by apply dict_get_elem_of.
Qed.

(** X14.  Take an instance whose products are pairwise distinct and a
    solution keyed by exactly the variables of its model.  If the assignment
    satisfies the constraints of the model, then on every hub-to-customer
    leg the quantities of the interpreter's trips add up to the values of
    the leg's move variables, which is at most the flight capacity times the
    number of flights assigned to the leg. *)
Theorem shipped_within_capacity customers hubs products capacity env self m
    solution customer hub :
  __init__ customers hubs products capacity env = Some self →
  model self = Some m →
  NoDup products →
  NoDup solution.*1 →
  (∀ v, v ∈ solution.*1 ↔ v ∈ decision_variables m) →
  Forall (holds (value_in solution)) (constraints m) →
  customer ∈ customers → hub ∈ hubs →
  ∃ trips,
    _get_trips solution = Some trips
    ∧ shipped (hub_to_customer trips) hub customer
      = sumZ (map (λ product,
                     value_in solution
                       (products_move_customer_hub (customer, hub, product)))
                products)
    ∧ shipped (hub_to_customer trips) hub customer
      ≤ capacity * value_in solution (flights_customer_hub (customer, hub)).
Proof.
  intros Hinit Hmodel Hproducts Hkeys Hvars Hholds Hc Hh.
  destruct (holds_constraints_inv _ _ _ _ _ _ _ _ Hinit Hmodel Hholds)
    as (_ & _ & Htrips & _).
  rewrite init_closed in Hinit. injection Hinit as <-.
  injection Hmodel as <-. simpl in Hvars.
  destruct (get_trips_total_on_model customers hubs products solution)
    as [trips Hget]; [intros v; apply Hvars|].
  exists trips. split; [done|].
  destruct (get_trips_inv _ _ Hget) as [Hhc _].
  assert (shipped (hub_to_customer trips) hub customer
          = sumZ (map (λ product,
                         value_in solution
                           (products_move_customer_hub
                              (customer, hub, product))) products)) as Hsum.
  { rewrite (shipped_reads _ _ _ _ Hhc), sumZ_moved_filter.
    etrans.
    { apply sumZ_perm, (fmap_Permutation snd).
      by apply (leg_entries_perm customers hubs products). }
    f_equal. apply map_map. }
  split; [done|]. rewrite Hsum.
  specialize (Htrips (customer, hub)). rewrite holds_trips in Htrips.
  simpl in Htrips.
  enough (sumZ (map (λ product,
                       value_in solution
                         (products_move_customer_hub
                            (customer, hub, product))) products)
          - capacity * value_in solution (flights_customer_hub (customer, hub))
          ≤ 0) by lia.
  apply Htrips. by apply elem_of_list_prod_iff.
Qed.
End Composition.

(** ** The sample instance *)
Section SampleInstance.
Local Open Scope nat_scope.

(** C1, counterexample.  Customer 1 lists product 0 with quantity 0: the
    pair has no nonzero demand, yet the demand family holds a constraint
    for it.  And when customer 0 is listed twice, the pair (customer 0,
    product 0) gets two constraints. *)
Lemma demand_family_counterexample :
  (∃ self family,
     __init__ [1] [0] [0] 5%Z env = Some self
     ∧ _get_demand_constraints self [1] [0] [0] = Some family
     ∧ family
       = [EqualityConstraint
            [(products_move_customer_hub (1, 0, 0), 1%Z)] 0%Z]
     ∧ spec_nonzero_demand_pairs [1] [0] = []
     ∧ family ≠ map (spec_demand_constraint [0])
                  (spec_nonzero_demand_pairs [1] [0]))
  ∧ (∃ self m family rest,
       __init__ [0; 0] [0] [0] 5%Z env = Some self
       ∧ model self = Some m
       ∧ _get_demand_constraints self [0; 0] [0] [0] = Some family
       ∧ constraints m = family ++ rest
       ∧ family
         = [EqualityConstraint
              [(products_move_customer_hub (0, 0, 0), 1%Z)] 10%Z;
            EqualityConstraint
              [(products_move_customer_hub (0, 0, 0), 1%Z)] 10%Z]).
Proof.
  split.
  - eexists _, _. split; [apply init_closed|].
    split; [by apply demand_constraints_closed|].
    split; [reflexivity|]. split; [reflexivity|].
    intros Heq. discriminate Heq.
  - eexists _, _, _, _. split; [apply init_closed|]. split; [reflexivity|].
    split; [by apply demand_constraints_closed|].
    split; reflexivity.
Qed.

(** C2, counterexample.  Hub 0 is listed twice: the pair (hub 0, product 0)
    gets two supply constraints. *)
Lemma supply_family_counterexample :
  ∃ self m f1 family rest,
    __init__ [0] [0; 0] [0] 5%Z env = Some self
    ∧ model self = Some m
    ∧ _get_supply_constraints self [0] [0] [0; 0] = Some family
    ∧ constraints m = f1 ++ family ++ rest
    ∧ family
      = [LE_InequalityConstraint
           [(products_move_customer_hub (0, 0, 0), 1%Z)] 10%Z;
         LE_InequalityConstraint
           [(products_move_customer_hub (0, 0, 0), 1%Z)] 10%Z].
Proof.
  eexists _, _, _, _, _. split; [apply init_closed|]. split; [reflexivity|].
  split; [by apply supply_constraints_closed|].
  split; reflexivity.
Qed.

(** C3, counterexample.  Customer 0 is listed twice: the leg (customer 0,
    hub 0) gets two capacity constraints.  Hub 1 is listed twice: each of
    the ordered pairs (0, 1) and (1, 0) gets two capacity constraints. *)
Lemma trip_capacity_counterexample :
  (∃ self family,
     __init__ [0; 0] [0] [0] 5%Z env = Some self
     ∧ _get_trips_constraints self [0; 0] [0] [0] = Some family
     ∧ family
       = [LE_InequalityConstraint
            [(products_move_customer_hub (0, 0, 0), 1%Z);
             (flights_customer_hub (0, 0), (-5)%Z)] 0%Z;
          LE_InequalityConstraint
            [(products_move_customer_hub (0, 0, 0), 1%Z);
             (flights_customer_hub (0, 0), (-5)%Z)] 0%Z])
  ∧ (∃ self family,
       __init__ [] [0; 1; 1] [] 5%Z env = Some self
       ∧ _get_trips_hub_to_hub_constraints self [] [0; 1; 1] = Some family
       ∧ family
         = [LE_InequalityConstraint [(flights_hub_hub (0, 1), (-5)%Z)] 0%Z;
            LE_InequalityConstraint [(flights_hub_hub (0, 1), (-5)%Z)] 0%Z;
            LE_InequalityConstraint [(flights_hub_hub (1, 0), (-5)%Z)] 0%Z;
            LE_InequalityConstraint [(flights_hub_hub (1, 0), (-5)%Z)] 0%Z]).
Proof.
  split.
  - eexists _, _. split; [apply init_closed|].
    split; [by rewrite (trips_constraints_closed _ [0; 0] [0] [0])|].
    reflexivity.
  - eexists _, _. split; [apply init_closed|].
    split;
      [by rewrite (trips_hub_to_hub_constraints_closed _ [] [0; 1; 1] [])|].
    reflexivity.
Qed.

(** C7, counterexample.  Without hubs, customer 0's demand of 10 units
    still yields the constraint [0 = 10]; without customers, two hubs still
    have variables and constraints, and an assignment that satisfies every
    constraint and bound at cost 0 is interpreted into a hub-to-hub trip. *)
Lemma empty_instances_counterexample :
  (∃ self m,
     __init__ [0] [] [0] 5%Z env = Some self
     ∧ model self = Some m
     ∧ constraints m = [EqualityConstraint [] 10%Z]
     ∧ constraints m ≠ [])
  ∧ (∃ self m trips,
       __init__ [] [0; 1] [0] 5%Z env = Some self
       ∧ model self = Some m
       ∧ decision_variables m = transfer_solution.*1
       ∧ decision_variables m ≠ []
       ∧ constraints m ≠ []
       ∧ Forall (holds (value_in transfer_solution)) (constraints m)
       ∧ Forall (within_bounds (value_in transfer_solution))
           (decision_variables m)
       ∧ le_eval (value_in transfer_solution) (objective m) = 0%Z
       ∧ _get_trips transfer_solution = Some trips
       ∧ hub_to_hub trips
         = [{| origin := OHub 0; destination := OHub 1;
               product_type := OProduct 0; product_quantity := 3%Z |}]).
Proof.
  split.
  - eexists _, _. split; [apply init_closed|]. split; [reflexivity|].
    split; [reflexivity|]. intros Heq. discriminate Heq.
  - eexists _, _, _. split; [apply init_closed|]. split; [reflexivity|].
    split; [reflexivity|]. split; [intros Heq; discriminate Heq|].
    split; [intros Heq; discriminate Heq|].
    split; [compute_done|]. split; [compute_done|].
    split; [by vm_compute|]. split; [by vm_compute|]. by vm_compute.
Qed.

(** C8, counterexample.  Customer 3 has an empty demand dictionary, so the
    demand family is empty and every assignment satisfies it; the
    assignment that sends the customer 5 units of product 0 is interpreted
    into a trip of 5 units, while the customer's demand for the product
    is 0.  The same trips bring nothing to customer 0, who is not of the
    instance and asks for 10 units.  Customer 2 asks for 3 units of
    product 1, which is not among the products of the instance: a feasible
    assignment brings none.  With hub 0 listed twice, the demand
    constraint of customer 0 counts its one move variable twice: a feasible
    assignment brings 5 of the 10 units asked for. *)
Lemma delivered_without_demand_counterexample :
  (∃ self m trips,
     __init__ [3] [0] [0] 5%Z env = Some self
     ∧ model self = Some m
     ∧ decision_variables m = unasked_solution.*1
     ∧ _get_demand_constraints self [3] [0] [0] = Some []
     ∧ Forall (holds (value_in unasked_solution)) []
     ∧ _get_trips unasked_solution = Some trips
     ∧ customer_demand 3 !! 0 = None
     ∧ delivered (hub_to_customer trips) 3 0 = 5%Z
     ∧ delivered (hub_to_customer trips) 3 0
       ≠ default 0%Z (customer_demand 3 !! 0)
     ∧ customer_demand 0 !! 0 = Some 10%Z
     ∧ delivered (hub_to_customer trips) 0 0 = 0%Z)
  ∧ (∃ self m family trips,
       __init__ [2] [0] [0] 5%Z env = Some self
       ∧ model self = Some m
       ∧ decision_variables m = partial_offer_solution.*1
       ∧ _get_demand_constraints self [2] [0] [0] = Some family
       ∧ Forall (holds (value_in partial_offer_solution)) family
       ∧ feasible m (value_in partial_offer_solution)
       ∧ _get_trips partial_offer_solution = Some trips
       ∧ customer_demand 2 !! 1 = Some 3%Z
       ∧ delivered (hub_to_customer trips) 2 1 = 0%Z)
  ∧ (∃ self m family trips,
       __init__ [0] [0; 0] [0] 5%Z env = Some self
       ∧ model self = Some m
       ∧ decision_variables m = repeated_hub_solution.*1
       ∧ _get_demand_constraints self [0] [0] [0; 0] = Some family
       ∧ family
         = [EqualityConstraint
              [(products_move_customer_hub (0, 0, 0), 1%Z);
               (products_move_customer_hub (0, 0, 0), 1%Z)] 10%Z]
       ∧ Forall (holds (value_in repeated_hub_solution)) family
       ∧ feasible m (value_in repeated_hub_solution)
       ∧ _get_trips repeated_hub_solution = Some trips
       ∧ customer_demand 0 !! 0 = Some 10%Z
       ∧ delivered (hub_to_customer trips) 0 0 = 5%Z).
Proof.
  split_and!.
  - eexists _, _, _. split; [apply init_closed|]. split; [reflexivity|].
    split; [reflexivity|].
    split; [by rewrite (demand_constraints_closed _ [3] [0] [0])|].
    split; [constructor|]. split; [by vm_compute|].
    split; [reflexivity|]. split; [by vm_compute|].
    split; [by vm_compute|]. split; [reflexivity|]. by vm_compute.
  - eexists _, _, _, _. split; [apply init_closed|]. split; [reflexivity|].
    split; [reflexivity|].
    split; [by apply demand_constraints_closed|].
    split; [compute_done|]. split; [compute_done|].
    split; [by vm_compute|]. split; [reflexivity|]. by vm_compute.
  - eexists _, _, _, _. split; [apply init_closed|]. split; [reflexivity|].
    split; [reflexivity|].
    split; [by apply demand_constraints_closed|].
    split; [reflexivity|].
    split; [compute_done|]. split; [compute_done|].
    split; [by vm_compute|]. split; [reflexivity|]. by vm_compute.
Qed.

(** The interpreter on the served customer: one trip, from the only
    non-zero move variable. *)
Example get_trips_served :
  _get_trips served_solution
  = Some {| hub_to_customer :=
              [{| origin := OHub 0; destination := OCustomer 0;
                  product_type := OProduct 0; product_quantity := 10%Z |}];
            hub_to_hub := [] |}.
Proof. by vm_compute. Qed.

(** A customer move variable that lost its index tuple makes the interpreter
    raise, unless its value is 0. *)
Example get_trips_untagged :
  let v := {| class_of := ProductsMoveCustomerHub; name := ∅;
              lower_bound := 0%Z; upper_bound := None;
              data := (∅ : gmap string (Obj (Customer:=nat) (Hub:=nat)
                                          (Product:=nat))) |} in
  _get_trips [(v, 4%Z)] = None
  ∧ _get_trips [(v, 0%Z)] = Some {| hub_to_customer := []; hub_to_hub := [] |}.
Proof. split; by vm_compute. Qed.

(** C8, witness: one customer asking for 10 units of product 0, two hubs,
    everything flown from hub 0. *)
Lemma delivered_equals_demand_witness :
  ∃ trips,
    _get_trips served_solution = Some trips
    ∧ delivered (hub_to_customer trips) 0 0 = 10%Z.
Proof.
  apply (delivered_equals_demand [0] [0; 1] [0] 5%Z env _ _ served_solution
           0 0 10%Z (init_closed _ _ _ _ _) eq_refl).
  - compute_done.
  - compute_done.
  - intros v. reflexivity.
  - eexists. split; [by apply demand_constraints_closed|]. compute_done.
  - compute_done.
  - compute_done.
  - reflexivity.
Defined.



(** X3, witness: no flight from hub 1 to customer 0, hence nothing moved. *)
Lemma no_move_without_flight_witness :
  value_in served_solution (products_move_customer_hub (0, 1, 0)) = 0%Z.
Proof.
  refine (proj2 (proj1 (no_move_without_flight [0] [0; 1] [0] 5%Z env _ _
                          (value_in served_solution)
                          (init_closed _ _ _ _ _) eq_refl _) 0 1 0 _ _ _) _).
  - compute_done.
  - compute_done.
  - compute_done.
  - compute_done.
  - compute_done.
Defined.

(** X4, witness: the cost of serving the customer is not negative. *)
Lemma objective_nonneg_witness :
  Z.le 0 (le_eval (value_in served_solution) (spec_objective env [0] [0; 1])).
Proof.
  apply (objective_nonneg [0] [0; 1] [0] 5%Z env _ _
           (value_in served_solution) (init_closed _ _ _ _ _) eq_refl).
  - intros a b. simpl. lia.
  - compute_done.
Defined.

(** X11, witness: one customer and one hub on a fresh object. *)
Lemma builders_need_catalogs_witness :
  get_objective fresh_self [0] [0] = None
  ∧ get_constraints fresh_self [0] [0] [0] = None.
Proof.
  apply (builders_need_catalogs [0] [0] [0] fresh_self).
  - reflexivity.
  - compute_done.
  - compute_done.
Defined.

(** X12, witness: the catalogs are built for customer 0 and asked about
    customer 1. *)
Lemma builders_raise_on_unknown_index_witness :
  get_objective (get_variables fresh_self [0] [0] [0]).1 [1] [0] = None
  ∧ get_constraints (get_variables fresh_self [0] [0] [0]).1 [1] [0] [0]
    = None.
Proof.
  apply (builders_raise_on_unknown_index [0] [0] [0] fresh_self [1] [0] [0]
           1 0).
  - compute_done.
  - compute_done.
  - left. compute_done.
Defined.

(** X13, witness: one customer, two hubs, one product: 8 variables and 7
    constraints. *)
Lemma model_size_witness :
  ∃ self m,
    __init__ [0] [0; 1] [0] 5%Z env = Some self
    ∧ model self = Some m
    ∧ length (decision_variables m) = 8
    ∧ length (constraints m) = 7.
Proof.
  destruct (model_size [0] [0; 1] [0] 5%Z env) as (self & m & Hi & Hm & Hv & Hc & _).
  - compute_done.
  - compute_done.
  - compute_done.
  - exists self, m. split; [exact Hi|]. split; [exact Hm|].
    split; [exact Hv|]. exact Hc.
Defined.

(** X14, witness: 10 units reach customer 0 from hub 0 in 2 flights of
    capacity 5. *)
Lemma shipped_within_capacity_witness :
  ∃ trips,
    _get_trips served_solution = Some trips
    ∧ shipped (hub_to_customer trips) 0 0
      = sumZ (map (λ product,
                     value_in served_solution
                       (products_move_customer_hub (0, 0, product))) [0])
    ∧ Z.le (shipped (hub_to_customer trips) 0 0)
        (Z.mul 5 (value_in served_solution (flights_customer_hub (0, 0)))).
Proof.
  apply (shipped_within_capacity [0] [0; 1] [0] 5%Z env _ _ served_solution
           0 0 (init_closed _ _ _ _ _) eq_refl).
  - compute_done.
  - compute_done.
  - intros v. reflexivity.
  - compute_done.
  - compute_done.
  - compute_done.
Defined.

(** X15, witness: a solver that answers with the served solution. *)
Lemma solve_returns_witness :
  ∃ self trips,
    __init__ [0] [0; 1] [0] 5%Z env = Some self
    ∧ solve self (λ _ _, Some served_solution) 120%Z = Some trips
    ∧ _get_trips served_solution = Some trips.
Proof.
  eexists _.
  destruct (solve_returns [0] [0; 1] [0] 5%Z env _
              (λ _ _, Some served_solution) 120%Z _ served_solution
              (init_closed _ _ _ _ _) eq_refl eq_refl) as (trips & Hs & Hg).
  - intros v Hv. exact Hv.
  - exists trips. split; [apply init_closed|]. split; [exact Hs|exact Hg].
Defined.

(** X16, witness: capacity 0.  Customer 1 lists product 0; three flights go
    to the customer, and the assignment is feasible only because they carry
    nothing and the listed quantity is 0. *)
Lemma nonpositive_capacity_witness :
  (∀ customer hub product,
     customer ∈ [1] → hub ∈ [0] → product ∈ [0] →
     value_in grounded_solution
       (products_move_customer_hub (customer, hub, product)) = 0%Z)
  ∧ (∀ customer product quantity,
       customer ∈ [1] → product ∈ [0] →
       customer_demand customer !! product = Some quantity →
       quantity = 0%Z).
Proof.
  apply (nonpositive_capacity [1] [0] [0] 0%Z env _ _
           (value_in grounded_solution) (init_closed _ _ _ _ _) eq_refl).
  - lia.
  - compute_done.
Defined.

(** X17, witness: customer 0 does not list product 1 and receives none. *)
Lemma delivered_zero_without_demand_witness :
  ∃ trips,
    _get_trips two_products_solution = Some trips
    ∧ delivered (hub_to_customer trips) 0 1 = 0%Z.
Proof.
  apply (delivered_zero_without_demand [0] [0] [0; 1] 5%Z env _ _
           two_products_solution 0 1 (init_closed _ _ _ _ _) eq_refl).
  - compute_done.
  - compute_done.
  - intros v. reflexivity.
  - apply Forall_forall. compute_done.
  - compute_done.
  - compute_done.
  - reflexivity.
Defined.
End SampleInstance.
